(** * templates/utils.py: directory listing and [.jpg] renaming

    A shallow embedding of the script [templates/utils.py] and of the
    parts of Python's [os], [os.path] and [str] it calls, followed by
    the properties of the two passes of the script.

    Layout:
    - [PyStr]: the string methods used ([split], [lower], slices, [rfind]);
    - [PosixPath], [PosixPathNames]: [os.path.join], [os.path.splitext],
      [os.path.dirname], [os.path.basename];
    - [OS], [Script]: the script, over an interface of filesystem calls;
    - [Posix]: one directory of a POSIX filesystem, which implements
      that interface;
    - [StrFacts], [NameFacts], [PosixFacts], [LoopFacts], [EntryFacts],
      [PassFacts], [RunFacts]: lemmas;
    - the properties of the two passes. *)

From Stdlib Require Import String Ascii List Bool Arith ZArith Lia.
Import ListNotations.
Open Scope string_scope.

(* ================================================================== *)
(** ** Python byte strings *)

Module PyStr.

(** [s[:n]] and [s[n:]] for [0 <= n]. *)
Fixpoint take (n : nat) (s : string) : string :=
  match n, s with
  | S n', String a r => String a (take n' r)
  | _, _ => ""
  end.

Fixpoint drop (n : nat) (s : string) : string :=
  match n, s with
  | S n', String _ r => drop n' r
  | _, _ => s
  end.

Definition slice_to (s : string) (i : Z) : string := take (Z.to_nat i) s.
Definition slice_from (s : string) (i : Z) : string := drop (Z.to_nat i) s.

(** [s.rfind(c)]: the highest index of [c] in [s], [-1] when absent.
    [rfind_from] scans left to right from index [i], remembering the
    last hit in [acc]. *)
Fixpoint rfind_from (c : ascii) (s : string) (i acc : Z) : Z :=
  match s with
  | "" => acc
  | String a r => rfind_from c r (i + 1) (if Ascii.eqb a c then i else acc)
  end.

Definition rfind (s : string) (c : ascii) : Z := rfind_from c s 0 (-1).

(** [s[i]] for an index inside the string. *)
Definition char_at (s : string) (i : Z) : option ascii := String.get (Z.to_nat i) s.

(** [s.startswith(c)] and [s.endswith(c)] for a one-character [c]. *)
Definition startswith (s : string) (c : ascii) : bool :=
  match s with
  | String a _ => Ascii.eqb a c
  | "" => false
  end.

Fixpoint endswith (s : string) (c : ascii) : bool :=
  match s with
  | "" => false
  | String a "" => Ascii.eqb a c
  | String _ r => endswith r c
  end.

(** [s.split(c)]: the pieces of [s] between the occurrences of [c];
    never the empty list. *)
Fixpoint split (c : ascii) (s : string) : list string :=
  match s with
  | "" => [""]
  | String a r =>
      if Ascii.eqb a c then "" :: split c r
      else match split c r with
           | h :: t => String a h :: t
           | [] => [String a ""]
           end
  end.

(** [str.lower] of Python 2 in the C locale: the letters [A]..[Z] are
    moved to [a]..[z], every other byte is kept. *)
Definition is_upper (a : ascii) : bool :=
  let n := nat_of_ascii a in ((65 <=? n)%nat && (n <=? 90)%nat)%bool.

Definition lower_char (a : ascii) : ascii :=
  if is_upper a then ascii_of_nat (nat_of_ascii a + 32) else a.

Fixpoint lower (s : string) : string :=
  match s with
  | "" => ""
  | String a r => String (lower_char a) (lower r)
  end.

(** Character-wise predicates on strings. *)
Fixpoint all_chars (p : ascii -> bool) (s : string) : bool :=
  match s with
  | "" => true
  | String a r => p a && all_chars p r
  end.

Definition no_char (c : ascii) (s : string) : bool :=
  all_chars (fun a => negb (Ascii.eqb a c)) s.

Definition no_upper (s : string) : bool :=
  all_chars (fun a => negb (is_upper a)) s.

End PyStr.

(* ================================================================== *)
(** ** posixpath *)

Module PosixPath.
Import PyStr.

(** [os.path.join(a, b)]: an absolute [b] replaces [a]; otherwise [b]
    is appended, with a separator unless [a] is empty or already ends
    with one. *)
Definition join (a b : string) : string :=
  if startswith b "/" then b
  else if (String.eqb a "" || endswith a "/")%bool then a ++ b
  else a ++ "/" ++ b.

Definition isabs (p : string) : bool := startswith p "/".

(** The scan of [genericpath._splitext] over the file name: is there a
    character other than the dot in [p[i:i+n]]? *)
Fixpoint has_non_dot (p : string) (i : Z) (n : nat) : bool :=
  match n with
  | O => false
  | S n' =>
      match char_at p i with
      | Some a => if Ascii.eqb a "." then has_non_dot p (i + 1) n' else true
      | None => has_non_dot p (i + 1) n'
      end
  end.

(** [os.path.splitext(p)]: [(root, ext)] with [root + ext = p]; the
    extension starts at the last dot of the last path component,
    and leading dots of that component do not start an extension. *)
Definition splitext (p : string) : string * string :=
  let sepIndex := rfind p "/" in
  let dotIndex := rfind p "." in
  if (sepIndex <? dotIndex)%Z
  then if has_non_dot p (sepIndex + 1) (Z.to_nat (dotIndex - (sepIndex + 1)))
       then (slice_to p dotIndex, slice_from p dotIndex)
       else (p, "")
  else (p, "").

(** The extension as the glossary of the specification words it: the
    substring after the last [.] of the file name. *)
Definition glossary_extension (f : string) : string :=
  slice_from f (rfind f "." + 1).

End PosixPath.

Module PosixPathNames.
Import PyStr PosixPath.

(** [s.rstrip('/')]. *)
Fixpoint rstrip_sep (s : string) : string :=
  match s with
  | "" => ""
  | String a r =>
      match rstrip_sep r with
      | "" => if Ascii.eqb a "/" then "" else String a ""
      | r' => String a r'
      end
  end.

(** [os.path.dirname(p)] and [os.path.basename(p)]. *)
Definition dirname (p : string) : string :=
  let i := (rfind p "/" + 1)%Z in
  let head := slice_to p i in
  if (negb (String.eqb head "") && negb (all_chars (fun a => Ascii.eqb a "/") head))%bool
  then rstrip_sep head
  else head.

Definition basename (p : string) : string :=
  let i := (rfind p "/" + 1)%Z in
  slice_from p i.

End PosixPathNames.

(* ================================================================== *)
(** ** The script *)

(** Exceptions the script can die of: [sys.argv[1]] on a short argument
    vector, and [OSError] from a filesystem call. *)
Inductive errno : Set :=
| ENOENT | EACCES | ENOTDIR | EISDIR | ENOTEMPTY | EXDEV | EROFS.

Inductive exn : Set :=
| IndexError
| OSError (e : errno).

Inductive result (A : Type) : Type :=
| Ok (a : A)
| Raise (e : exn).

Arguments Ok {A} a.
Arguments Raise {A} e.

(** The filesystem calls of the script, over a type [W] of worlds.
    [isfile] never raises (it answers [False] for what it cannot stat);
    a failing [rename] leaves the world as it was. *)
Class OS (W : Type) : Type := {
  listdir : W -> string -> result (list string);
  isfile : W -> string -> bool;
  rename : W -> string -> string -> result W
}.

Module Script.
Import PyStr PosixPath PosixPathNames.

(** What a run leaves behind: the lines printed, the world, and the
    exception that ended it, if any. *)
Record outcome (W : Type) : Type := {
  stdout : list string;
  final : W;
  fault : option exn
}.

Arguments stdout {W} _.
Arguments final {W} _.
Arguments fault {W} _.

(** Line 24: [ext == '.jpg']. *)
Definition is_jpg (f : string) : bool := String.eqb (snd (splitext f)) ".jpg".

(** Line 25: [basename.split('_')[0].lower() + ext], with
    [basename, ext = os.path.splitext(f)] of line 23. *)
Definition new_name (f : string) : string :=
  let (basename, ext) := splitext f in
  lower (hd "" (split "_" basename)) ++ ext.

Section Passes.
Context {W : Type} `{OS W}.

(** Lines 14-18: the lines printed for the listing [l] of [mypath]. *)
Fixpoint listing_loop (w : W) (dir_path mypath : string) (l : list string)
  : list string :=
  match l with
  | [] => []
  | f :: rest =>
      let path := join mypath f in
      if isfile w path
      then join dir_path path :: listing_loop w dir_path mypath rest
      else listing_loop w dir_path mypath rest
  end.

(** Lines 22-26: the renames for the listing [l] of [dir]; the first
    rename that raises ends the loop. *)
Fixpoint rename_loop (w : W) (dir : string) (l : list string)
  : W * option exn :=
  match l with
  | [] => (w, None)
  | f :: rest =>
      let (basename, ext) := splitext f in
      if String.eqb ext ".jpg"
      then
        let new_name := lower (hd "" (split "_" basename)) ++ ext in
        match rename w (join dir f) (join dir new_name) with
        | Ok w' => rename_loop w' dir rest
        | Raise e => (w, Some e)
        end
      else rename_loop w dir rest
  end.

(** The rename pass with its own [os.listdir] (lines 21-26). *)
Definition rename_pass (w : W) (dir : string) : W * option exn :=
  match listdir w dir with
  | Raise e => (w, Some e)
  | Ok l => rename_loop w dir l
  end.

(** The listing pass with its [os.listdir] (lines 14-18). *)
Definition listing_pass (w : W) (dir_path mypath : string)
  : result (list string) :=
  match listdir w mypath with
  | Raise e => Raise e
  | Ok l => Ok (listing_loop w dir_path mypath l)
  end.

(** The whole script; [script] is [os.path.realpath(__file__)].  The
    module-level [basename] of line 8 is computed and never read. *)
Definition main (w : W) (script : string) (argv : list string) : outcome W :=
  let dir_path := dirname script in
  let basename := basename script in
  match nth_error argv 1 with
  | None => {| stdout := []; final := w; fault := Some IndexError |}
  | Some mypath =>
      match listing_pass w dir_path mypath with
      | Raise e => {| stdout := []; final := w; fault := Some e |}
      | Ok out =>
          let dir := mypath in
          let (w', r) := rename_pass w dir in
          {| stdout := out; final := w'; fault := r |}
      end
  end.

End Passes.

End Script.

(* ================================================================== *)
(** ** One directory of a POSIX filesystem *)

(** The script works on a single directory [D].  A world records where
    [D] and the working directory are, and what [D] holds.  Paths are
    resolved by their components; the model covers the paths that
    denote [D] or an entry of [D] without passing through an entry of
    [D] (no symbolic links on the way), every other path denotes
    nothing.

    The model is of an accessible directory of files of their own:
    - [D] can be searched, so an entry can always be looked up
      ([readable] is the permission to list, [writable] the permission
      to add and remove entries; a directory that can be listed but not
      searched is not covered);
    - [D] has no sticky bit and is on a file system that can be
      written: [writable] alone decides whether a rename is allowed;
    - no two names of [D] are links to one file, so a rename onto an
      existing name always replaces it;
    - nothing else changes [D] during the run. *)
Module Posix.
Import PyStr PosixPath Script.

Inductive node : Type :=
| File (data : string)            (* a regular file and its contents *)
| Dir (children : list string)    (* a subdirectory and the names in it *)
| Special.                        (* fifo, socket, device, dangling link *)

Definition entries : Type := list (string * node).

Record world : Type := {
  cwd : string;             (* absolute path of the working directory *)
  dloc : list string;       (* the components of the absolute path of D *)
  readable : bool;          (* may D be listed *)
  writable : bool;          (* may entries of D be added and removed *)
  content : entries         (* the entries of D, in listing order *)
}.

(** *** Entries *)

Fixpoint get (k : string) (es : entries) : option node :=
  match es with
  | [] => None
  | (k', n) :: rest => if String.eqb k' k then Some n else get k rest
  end.

Definition remove (k : string) (es : entries) : entries :=
  filter (fun e => negb (String.eqb (fst e) k)) es.

Definition names (es : entries) : list string := map fst es.

(** [rename(2)] between two names of the same directory. *)
Definition rename_entry (wr : bool) (es : entries) (src dst : string)
  : result entries :=
  match get src es with
  | None => Raise (OSError ENOENT)
  | Some n =>
      if String.eqb src dst then Ok es
      else if negb wr then Raise (OSError EACCES)
      else
        let moved := (dst, n) :: remove dst (remove src es) in
        match n, get dst es with
        | Dir _, Some (Dir []) => Ok moved
        | Dir _, Some (Dir (_ :: _)) => Raise (OSError ENOTEMPTY)
        | Dir _, Some _ => Raise (OSError ENOTDIR)
        | Dir _, None => Ok moved
        | _, Some (Dir _) => Raise (OSError EISDIR)
        | _, _ => Ok moved
        end
  end.

(** *** Path resolution *)

(** Is [stack] strictly below the directory at [d]? *)
Fixpoint below (d stack : list string) : bool :=
  match d, stack with
  | [], _ :: _ => true
  | x :: d', y :: stack' => String.eqb x y && below d' stack'
  | _, _ => false
  end.

(** One component of a path, from the directory at [stack]. *)
Definition walk (d : list string) (st : option (list string)) (c : string)
  : option (list string) :=
  match st with
  | None => None
  | Some stack =>
      if below d stack then None
      else if String.eqb c "" then Some stack
      else if String.eqb c "." then Some stack
      else if String.eqb c ".." then Some (removelast stack)
      else Some (stack ++ [c])%list
  end.

Definition resolve (w : world) (p : string) : option (list string) :=
  if String.eqb p "" then None
  else fold_left (walk (dloc w)) (split "/" (join (cwd w) p)) (Some []).

Inductive place : Type :=
| TheDir                  (* the path denotes D *)
| InDir (name : string)   (* the path names the entry [name] of D *)
| Elsewhere.

Fixpoint strip (d cs : list string) : option (list string) :=
  match d, cs with
  | [], _ => Some cs
  | x :: d', y :: cs' => if String.eqb x y then strip d' cs' else None
  | _ :: _, [] => None
  end.

Definition locate (w : world) (p : string) : place :=
  match resolve w p with
  | None => Elsewhere
  | Some cs =>
      match strip (dloc w) cs with
      | Some [] => TheDir
      | Some [n] => InDir n
      | _ => Elsewhere
      end
  end.

(** *** The calls *)

Definition posix_listdir (w : world) (p : string) : result (list string) :=
  match locate w p with
  | TheDir =>
      if readable w then Ok (names (content w)) else Raise (OSError EACCES)
  | InDir n =>
      match get n (content w) with
      | Some (Dir ch) => Ok ch
      | Some _ => Raise (OSError ENOTDIR)
      | None => Raise (OSError ENOENT)
      end
  | Elsewhere => Raise (OSError ENOENT)
  end.

Definition posix_isfile (w : world) (p : string) : bool :=
  match locate w p with
  | InDir n =>
      match get n (content w) with
      | Some (File _) => true
      | _ => false
      end
  | _ => false
  end.

Definition with_content (w : world) (es : entries) : world :=
  {| cwd := cwd w; dloc := dloc w; readable := readable w;
     writable := writable w; content := es |}.

Definition posix_rename (w : world) (src dst : string) : result world :=
  match locate w src, locate w dst with
  | InDir f, InDir g =>
      match rename_entry (writable w) (content w) f g with
      | Ok es => Ok (with_content w es)
      | Raise e => Raise e
      end
  | InDir _, _ => Raise (OSError EXDEV)
  | _, _ => Raise (OSError ENOENT)
  end.

#[export] Instance posix_os : OS world := {
  listdir := posix_listdir;
  isfile := posix_isfile;
  rename := posix_rename
}.

(** The canonical absolute path of the entry [name] of D. *)
Definition abs_entry (w : world) (name : string) : string :=
  fold_right (fun c r => "/" ++ c ++ r) "" (dloc w ++ [name])%list.

(** A name a directory entry can have. *)
Definition valid_name (f : string) : bool :=
  (negb (String.eqb f "") && negb (String.eqb f ".") && negb (String.eqb f "..")
   && no_char "/" f)%bool.

(** *** Directories as the script meets them *)

Fixpoint nodupb (l : list string) : bool :=
  match l with
  | [] => true
  | x :: r => negb (existsb (String.eqb x) r) && nodupb r
  end.

(** A well-formed directory: no name twice, every name a legal one. *)
Definition wf (w : world) : bool :=
  nodupb (names (content w)) && forallb valid_name (names (content w)).

Definition is_file (n : node) : bool :=
  match n with File _ => true | _ => false end.

(** The names of the regular files, in listing order. *)
Definition regular (es : entries) : list string :=
  names (filter (fun e => is_file (snd e)) es).

(** The rename loop as it acts on the entries of [D]: what
    [Script.rename_loop] does to [content] when [dir] denotes [D]
    (lemma [rename_loop_entries] below). *)
Fixpoint rename_entries (wr : bool) (es : entries) (l : list string)
  : entries * option exn :=
  match l with
  | [] => (es, None)
  | f :: rest =>
      if is_jpg f
      then match rename_entry wr es f (new_name f) with
           | Ok es' => rename_entries wr es' rest
           | Raise e => (es, Some e)
           end
      else rename_entries wr es rest
  end.

(** *** Sample directories

    [/home/u/pics] seen from the working directory [/home/u]. *)

Definition pics (es : entries) : world :=
  {| cwd := "/home/u"; dloc := ["home"; "u"; "pics"];
     readable := true; writable := true; content := es |}.

(** One regular file and one subdirectory. *)
Definition plain_pics : world :=
  pics [("a.txt", File "A"); ("sub", Dir [])].

(** A subdirectory whose name has the extension [.jpg]. *)
Definition album_pics : world :=
  pics [("A_B.jpg", Dir ["inner.txt"]); ("note.txt", File "n")].

(** The two names of the specification. *)
Definition photo_pics : world :=
  pics [("X_Y.jpg", File "1"); ("Photo.jpg", File "2")].

(** A dot file whose name is the target of another entry. *)
Definition dot_pics : world :=
  pics [("_x.jpg", File "new"); (".jpg", File "old")].

(** Two sources of one target, the later one already named by it. *)
Definition clash_pics : world :=
  pics [("a_1.jpg", File "B"); ("a.jpg", File "A")].

(** Two sources of one target that neither of them has. *)
Definition pair_pics : world :=
  pics [("A_1.jpg", File "1"); ("A_2.jpg", File "2")].

(** A rename that fails after one that succeeded. *)
Definition blocked_pics : world :=
  pics [("A_1.jpg", File "1"); ("B_1.jpg", File "2");
        ("b.jpg", Dir []); ("C_1.jpg", File "3")].

(** Names already in lower case and without underscore. *)
Definition tidy_pics : world :=
  pics [("a.jpg", File "1"); ("b.c.jpg", File "2"); ("README", File "3")].

(** Regular files and a fifo, no subdirectory. *)
Definition flat_pics : world :=
  pics [("A_1.jpg", File "1"); ("a.jpg", Special); ("B_2.jpg", Special)].

End Posix.

(* ================================================================== *)
(** ** Facts about the string functions *)

Module StrFacts.
Import PyStr PosixPath.

Lemma append_nil_r (s : string) : s ++ "" = s.
Proof. induction s as [|a s IH]; simpl; [reflexivity | now rewrite IH]. Qed.

Lemma append_assoc (a b c : string) : (a ++ b) ++ c = a ++ (b ++ c).
Proof. induction a as [|x a IH]; simpl; [reflexivity | now rewrite IH]. Qed.

Lemma length_append (a b : string) :
  String.length (a ++ b) = String.length a + String.length b.
Proof. induction a as [|x a IH]; simpl; [reflexivity | now rewrite IH]. Qed.

Lemma append_inj_r (c a b : string) : a ++ c = b ++ c -> a = b.
Proof.
  revert b; induction a as [|x a IH]; intros [|y b] E; simpl in E.
  - reflexivity.
  - apply (f_equal String.length) in E; simpl in E.
    rewrite length_append in E; lia.
  - apply (f_equal String.length) in E; simpl in E.
    rewrite length_append in E; lia.
  - injection E as -> E. f_equal. now apply IH.
Qed.

Lemma take_drop (n : nat) (s : string) : take n s ++ drop n s = s.
Proof.
  revert s; induction n as [|n IH]; intros [|a s]; simpl; try reflexivity.
  now rewrite IH.
Qed.

Lemma splitext_append (p root ext : string) :
  splitext p = (root, ext) -> root ++ ext = p.
Proof.
  unfold splitext, slice_to, slice_from.
  destruct (rfind p "/" <? rfind p ".")%Z.
  - destruct (has_non_dot _ _ _); intros [= <- <-].
    + apply take_drop.
    + apply append_nil_r.
  - intros [= <- <-]. apply append_nil_r.
Qed.

(** *** Characters *)

Lemma all_chars_app (p : ascii -> bool) (a b : string) :
  all_chars p (a ++ b) = (all_chars p a && all_chars p b)%bool.
Proof.
  induction a as [|x a IH]; simpl; [reflexivity|].
  now rewrite IH, andb_assoc.
Qed.

Lemma no_char_app (c : ascii) (a b : string) :
  no_char c (a ++ b) = (no_char c a && no_char c b)%bool.
Proof. apply all_chars_app. Qed.

Lemma no_upper_app (a b : string) :
  no_upper (a ++ b) = (no_upper a && no_upper b)%bool.
Proof. apply all_chars_app. Qed.

Lemma lower_char_not_upper (a : ascii) : is_upper (lower_char a) = false.
Proof. destruct a as [[] [] [] [] [] [] [] []]; reflexivity. Qed.

Lemma lower_char_underscore (a : ascii) :
  Ascii.eqb (lower_char a) "_" = Ascii.eqb a "_".
Proof. destruct a as [[] [] [] [] [] [] [] []]; reflexivity. Qed.

Lemma lower_char_sep (a : ascii) :
  Ascii.eqb (lower_char a) "/" = Ascii.eqb a "/".
Proof. destruct a as [[] [] [] [] [] [] [] []]; reflexivity. Qed.

Lemma lower_app (a b : string) : lower (a ++ b) = lower a ++ lower b.
Proof. induction a as [|x a IH]; simpl; [reflexivity | now rewrite IH]. Qed.

Lemma no_upper_lower (s : string) : no_upper (lower s) = true.
Proof.
  induction s as [|a s IH]; simpl; [reflexivity|].
  unfold no_upper in *; simpl.
  now rewrite lower_char_not_upper, IH.
Qed.

Lemma lower_fixed (s : string) : no_upper s = true -> lower s = s.
Proof.
  unfold no_upper.
  induction s as [|a s IH]; simpl; [reflexivity|].
  intros E; apply andb_true_iff in E as [Ea Es].
  unfold lower_char. apply negb_true_iff in Ea. rewrite Ea.
  now rewrite IH.
Qed.

Lemma no_underscore_lower (s : string) : no_char "_" (lower s) = no_char "_" s.
Proof.
  unfold no_char.
  induction s as [|a s IH]; simpl; [reflexivity|].
  now rewrite lower_char_underscore, IH.
Qed.

Lemma no_sep_lower (s : string) : no_char "/" (lower s) = no_char "/" s.
Proof.
  unfold no_char.
  induction s as [|a s IH]; simpl; [reflexivity|].
  now rewrite lower_char_sep, IH.
Qed.

Lemma lower_length (s : string) : String.length (lower s) = String.length s.
Proof. induction s as [|a s IH]; simpl; [reflexivity | now rewrite IH]. Qed.

(** *** [split] *)

Lemma split_nonempty (c : ascii) (s : string) : split c s <> [].
Proof.
  destruct s as [|a s]; simpl; [discriminate|].
  destruct (Ascii.eqb a c); [discriminate|].
  destruct (split c s); discriminate.
Qed.

Lemma split_hd_cons (c a : ascii) (s : string) :
  hd "" (split c (String a s)) =
  if Ascii.eqb a c then "" else String a (hd "" (split c s)).
Proof.
  simpl. destruct (Ascii.eqb a c); [reflexivity|].
  destruct (split c s) eqn:E; [|reflexivity].
  now apply split_nonempty in E.
Qed.

(** [s.split(c)[0]] is the part of [s] before its first [c], and all
    of [s] when there is none. *)
Lemma split_hd_spec (c : ascii) (s : string) :
  exists rest,
    s = hd "" (split c s) ++ rest
    /\ no_char c (hd "" (split c s)) = true
    /\ (rest = "" \/ startswith rest c = true).
Proof.
  induction s as [|a s (rest & E & N & R)].
  - exists ""; simpl; auto.
  - rewrite split_hd_cons. destruct (Ascii.eqb a c) eqn:Eac.
    + exists (String a s); simpl. rewrite Eac; auto.
    + exists rest. simpl. rewrite <- E. unfold no_char in *; simpl.
      rewrite Eac, N; auto.
Qed.

Lemma split_no_char (c : ascii) (s : string) :
  no_char c s = true -> split c s = [s].
Proof.
  unfold no_char.
  induction s as [|a s IH]; simpl; [reflexivity|].
  intros E; apply andb_true_iff in E as [Ea Es].
  apply negb_true_iff in Ea. rewrite Ea, (IH Es). reflexivity.
Qed.

Lemma split_app (c : ascii) (a b : string) :
  split c (a ++ String c b) = (split c a ++ split c b)%list.
Proof.
  induction a as [|x a IH]; simpl.
  - now rewrite Ascii.eqb_refl.
  - destruct (Ascii.eqb x c); [now rewrite IH|].
    rewrite IH. destruct (split c a) eqn:E; [|reflexivity].
    now apply split_nonempty in E.
Qed.

Lemma no_char_hd_split (c d : ascii) (s : string) :
  no_char d s = true -> no_char d (hd "" (split c s)) = true.
Proof.
  destruct (split_hd_spec c s) as (rest & E & _ & _).
  intros N. rewrite E, no_char_app in N.
  now apply andb_true_iff in N as [N _].
Qed.

(** *** [startswith], [endswith] *)

Lemma endswith_app (a b : string) (c : ascii) :
  b <> "" -> endswith (a ++ b) c = endswith b c.
Proof.
  intros Hb. induction a as [|x a IH]; simpl; [reflexivity|].
  destruct (a ++ b) eqn:E; [|exact IH].
  destruct a; simpl in E; [contradiction | discriminate].
Qed.

Lemma endswith_inv (s : string) (c : ascii) :
  endswith s c = true -> exists s', s = s' ++ String c "".
Proof.
  induction s as [|a s IH]; simpl; [discriminate|].
  destruct s as [|b s].
  - intros E; apply Ascii.eqb_eq in E as ->. now exists "".
  - intros E. destruct (IH E) as (s' & ->). now exists (String a s').
Qed.

Lemma startswith_app (a b : string) (c : ascii) :
  a <> "" -> startswith (a ++ b) c = startswith a c.
Proof. destruct a; [contradiction | reflexivity]. Qed.

Lemma no_char_not_startswith (c : ascii) (s : string) :
  no_char c s = true -> startswith s c = false.
Proof.
  destruct s as [|a s]; [reflexivity|]. unfold no_char; simpl.
  intros E; apply andb_true_iff in E as [E _]. now apply negb_true_iff in E.
Qed.

End StrFacts.

(* ================================================================== *)
(** ** Facts about the name mapping *)

Module NameFacts.
Import PyStr PosixPath Script StrFacts.

Example splitext_samples :
  splitext "X_Y.jpg" = ("X_Y", ".jpg")
  /\ splitext "a.b.jpg" = ("a.b", ".jpg")
  /\ splitext "n.JPG" = ("n", ".JPG")
  /\ splitext "README" = ("README", "")
  /\ splitext ".jpg" = (".jpg", "")
  /\ splitext "..jpg" = ("..jpg", "")
  /\ splitext "d.x/f" = ("d.x/f", "").
Proof. repeat split. Qed.

Example join_samples :
  join "pics" "a.txt" = "pics/a.txt"
  /\ join "pics/" "a.txt" = "pics/a.txt"
  /\ join "" "a.txt" = "a.txt"
  /\ join "/opt/tool" "/home/u/pics/a.txt" = "/home/u/pics/a.txt"
  /\ join "/opt/tool" "pics/a.txt" = "/opt/tool/pics/a.txt".
Proof. repeat split. Qed.

Example new_name_samples :
  new_name "X_Y.jpg" = "x.jpg"
  /\ new_name "Photo.jpg" = "photo.jpg"
  /\ new_name "IMG_2020_01.jpg" = "img.jpg"
  /\ new_name "a.B_c.jpg" = "a.b.jpg"
  /\ new_name "_x.jpg" = ".jpg".
Proof. repeat split. Qed.

Lemma is_jpg_inv (f : string) :
  is_jpg f = true -> exists base, splitext f = (base, ".jpg") /\ f = base ++ ".jpg".
Proof.
  unfold is_jpg. destruct (splitext f) as [base ext] eqn:E; simpl.
  intros H; apply String.eqb_eq in H; subst ext.
  exists base; split; [reflexivity|]. symmetry; now apply splitext_append.
Qed.

Lemma is_jpg_root (f base : string) :
  splitext f = (base, ".jpg") -> is_jpg f = true.
Proof. unfold is_jpg; now intros ->. Qed.

Lemma new_name_jpg (f base : string) :
  splitext f = (base, ".jpg") ->
  new_name f = lower (hd "" (split "_" base)) ++ ".jpg".
Proof. unfold new_name; now intros ->. Qed.

(** The root of a name [p ++ ".jpg"] that has the extension [.jpg] is [p]. *)
Lemma jpg_root (p : string) :
  is_jpg (p ++ ".jpg") = true -> splitext (p ++ ".jpg") = (p, ".jpg").
Proof.
  intros H; destruct (is_jpg_inv _ H) as (base & E & A).
  apply append_inj_r in A; now subst.
Qed.

Lemma new_name_normal (f : string) :
  is_jpg f = true ->
  exists p, new_name f = p ++ ".jpg"
            /\ no_char "_" p = true /\ no_upper p = true.
Proof.
  intros H; destruct (is_jpg_inv _ H) as (base & E & _).
  exists (lower (hd "" (split "_" base))); repeat split.
  - now apply new_name_jpg.
  - rewrite no_underscore_lower.
    now destruct (split_hd_spec "_" base) as (rest & _ & N & _).
  - apply no_upper_lower.
Qed.

Lemma normal_fixed (f base : string) :
  splitext f = (base, ".jpg") ->
  no_upper base = true -> no_char "_" base = true ->
  new_name f = f.
Proof.
  intros E U N. rewrite (new_name_jpg _ _ E), (split_no_char _ _ N); simpl.
  rewrite (lower_fixed _ U). now apply splitext_append.
Qed.

Lemma new_name_fixed (f : string) :
  is_jpg f = true -> is_jpg (new_name f) = true ->
  new_name (new_name f) = new_name f.
Proof.
  intros H H'. destruct (new_name_normal _ H) as (p & E & N & U).
  rewrite E in *. exact (normal_fixed _ _ (jpg_root _ H') U N).
Qed.

Lemma long_name_neq (p s : string) :
  String.length s < 4 -> String.eqb (p ++ ".jpg") s = false.
Proof.
  intros L. apply String.eqb_neq. intros E.
  apply (f_equal String.length) in E. rewrite length_append in E.
  simpl in E. lia.
Qed.

End NameFacts.

(* ================================================================== *)
(** ** Facts about the directory model *)

Module PosixFacts.
Import PyStr PosixPath Script Posix StrFacts NameFacts.

(** *** Names *)

Lemma valid_name_inv (f : string) :
  valid_name f = true ->
  f <> "" /\ f <> "." /\ f <> ".." /\ no_char "/" f = true.
Proof.
  unfold valid_name. intros H.
  repeat (apply andb_true_iff in H as [H ?]).
  repeat split; try assumption;
    match goal with
    | E : negb (String.eqb f ?s) = true |- f <> ?s =>
        apply negb_true_iff in E; now apply String.eqb_neq in E
    end.
Qed.

Lemma new_name_valid (f : string) :
  valid_name f = true -> is_jpg f = true -> valid_name (new_name f) = true.
Proof.
  intros V H. destruct (valid_name_inv _ V) as (_ & _ & _ & N).
  destruct (is_jpg_inv _ H) as (base & E & A).
  rewrite (new_name_jpg _ _ E). unfold valid_name.
  rewrite !long_name_neq by (simpl; lia). simpl.
  rewrite A, no_char_app in N. apply andb_true_iff in N as [N _].
  rewrite no_char_app, no_sep_lower, (no_char_hd_split "_" "/" _ N).
  reflexivity.
Qed.

(** *** Paths *)

Lemma join_entry (a f : string) :
  a <> "" -> startswith f "/" = false ->
  join a f = if endswith a "/" then a ++ f else a ++ "/" ++ f.
Proof.
  intros Ha Hf. unfold join. rewrite Hf.
  apply String.eqb_neq in Ha. now rewrite Ha.
Qed.

Lemma join_nonempty (a b : string) : b <> "" -> join a b <> "".
Proof.
  intros Hb. unfold join.
  destruct (startswith b "/"); [assumption|].
  destruct (_ || _)%bool; destruct a; simpl; try assumption; discriminate.
Qed.

Lemma join_join_entry (c dir f : string) :
  dir <> "" -> startswith f "/" = false ->
  join c (join dir f) = join (join c dir) f.
Proof.
  intros Hd Hf.
  assert (Hs : forall x, startswith (dir ++ x) "/" = startswith dir "/")
    by (intros x; now apply startswith_app).
  rewrite (join_entry (join c dir) f) by (try apply join_nonempty; assumption).
  rewrite (join_entry _ _ Hd Hf).
  destruct (startswith dir "/") eqn:Sd.
  - assert (Hc : join c dir = dir) by (unfold join; now rewrite Sd).
    rewrite Hc. unfold join.
    destruct (endswith dir "/"); now rewrite Hs.
  - destruct (String.eqb c "" || endswith c "/")%bool eqn:Eb.
    + assert (Hc : join c dir = c ++ dir) by (unfold join; now rewrite Sd, Eb).
      rewrite Hc, (endswith_app c dir "/" Hd). unfold join.
      destruct (endswith dir "/"); rewrite Hs, Eb; now rewrite !append_assoc.
    + assert (Hc : join c dir = (c ++ "/") ++ dir)
        by (unfold join; now rewrite Sd, Eb, append_assoc).
      rewrite Hc, (endswith_app (c ++ "/") dir "/" Hd). unfold join.
      destruct (endswith dir "/"); rewrite Hs, Eb; now rewrite !append_assoc.
Qed.

Lemma strip_nil_inv (d cs : list string) : strip d cs = Some [] -> cs = d.
Proof.
  revert cs; induction d as [|x d IH]; intros [|y cs]; simpl.
  - reflexivity.
  - discriminate.
  - discriminate.
  - destruct (String.eqb_spec x y); [|discriminate].
    intros E. subst. f_equal. now apply IH.
Qed.

Lemma strip_app (d r : list string) : strip d (d ++ r) = Some r.
Proof.
  induction d as [|x d IH]; simpl; [reflexivity|].
  now rewrite String.eqb_refl.
Qed.

Lemma below_refl (d : list string) : below d d = false.
Proof.
  induction d as [|x d IH]; simpl; [reflexivity|].
  now rewrite String.eqb_refl.
Qed.

Lemma walk_entry (d : list string) (f : string) :
  valid_name f = true -> walk d (Some d) f = Some (d ++ [f])%list.
Proof.
  intros V. destruct (valid_name_inv _ V) as (H1 & H2 & H3 & _).
  unfold walk. rewrite below_refl.
  apply String.eqb_neq in H1, H2, H3. now rewrite H1, H2, H3.
Qed.

Lemma walk_empty_inv (d : list string) (st : option (list string)) (cs : list string) :
  walk d st "" = Some cs -> st = Some cs.
Proof.
  destruct st as [stack|]; simpl; [|discriminate].
  destruct (below d stack); [discriminate|]. now intros [= ->].
Qed.

Lemma resolve_join_entry (w : world) (dir f : string) :
  resolve w dir = Some (dloc w) -> valid_name f = true ->
  resolve w (join dir f) = Some (dloc w ++ [f])%list.
Proof.
  intros R V. destruct (valid_name_inv _ V) as (Hf & _ & _ & N).
  pose proof (no_char_not_startswith _ _ N) as Sf.
  unfold resolve in *.
  destruct (String.eqb_spec dir ""); [discriminate|].
  destruct (String.eqb_spec (join dir f) "") as [E|_];
    [now apply join_nonempty in E|].
  rewrite join_join_entry by assumption.
  assert (P : join (cwd w) dir <> "") by now apply join_nonempty.
  rewrite (join_entry _ _ P Sf).
  destruct (endswith (join (cwd w) dir) "/") eqn:En.
  - destruct (endswith_inv _ _ En) as (p' & Ep). rewrite Ep in *.
    rewrite split_app in R. simpl split in R.
    rewrite fold_left_app in R. simpl in R.
    apply walk_empty_inv in R.
    rewrite append_assoc. simpl append.
    rewrite split_app, (split_no_char _ _ N), fold_left_app, R. simpl.
    now apply walk_entry.
  - simpl append.
    rewrite split_app, (split_no_char _ _ N), fold_left_app, R. simpl.
    now apply walk_entry.
Qed.

Lemma locate_TheDir_inv (w : world) (p : string) :
  locate w p = TheDir -> resolve w p = Some (dloc w).
Proof.
  unfold locate. destruct (resolve w p) as [cs|]; [|discriminate].
  destruct (strip (dloc w) cs) as [[|n [|m r]]|] eqn:E; try discriminate.
  intros _. f_equal. now apply strip_nil_inv.
Qed.

Lemma locate_join_entry (w : world) (dir f : string) :
  locate w dir = TheDir -> valid_name f = true ->
  locate w (join dir f) = InDir f.
Proof.
  intros L V. apply locate_TheDir_inv in L.
  unfold locate. rewrite (resolve_join_entry _ _ _ L V), strip_app.
  reflexivity.
Qed.

Lemma locate_with_content (w : world) (es : entries) (p : string) :
  locate (with_content w es) p = locate w p.
Proof. reflexivity. Qed.

End PosixFacts.

(* ================================================================== *)
(** ** The loops, step by step *)

Module LoopFacts.
Import PyStr PosixPath Script.

Section AnyOS.
Context {W : Type} `{OS W}.

(** The body of the rename loop, with lines 23-25 folded into
    [is_jpg] and [new_name]. *)
Lemma rename_loop_cons (w : W) (dir f : string) (rest : list string) :
  rename_loop w dir (f :: rest) =
  if is_jpg f
  then match rename w (join dir f) (join dir (new_name f)) with
       | Ok w' => rename_loop w' dir rest
       | Raise e => (w, Some e)
       end
  else rename_loop w dir rest.
Proof.
  simpl. unfold is_jpg, new_name.
  destruct (splitext f) as [basename ext]; reflexivity.
Qed.

Lemma rename_loop_app (w : W) (dir : string) (l1 l2 : list string) :
  rename_loop w dir (l1 ++ l2) =
  match rename_loop w dir l1 with
  | (w1, None) => rename_loop w1 dir l2
  | (w1, Some e) => (w1, Some e)
  end.
Proof.
  revert w; induction l1 as [|f l1 IH]; intros w; [reflexivity|].
  rewrite <- app_comm_cons, !rename_loop_cons.
  destruct (is_jpg f); [|apply IH].
  destruct (rename w (join dir f) (join dir (new_name f))); [apply IH | reflexivity].
Qed.

(** An entry that is not [.jpg] makes no call: the loop runs as if
    the entry were not listed. *)
Lemma rename_loop_skip (w : W) (dir f : string) (l1 l2 : list string) :
  is_jpg f = false ->
  rename_loop w dir (l1 ++ f :: l2) = rename_loop w dir (l1 ++ l2).
Proof.
  intros N. rewrite !rename_loop_app.
  destruct (rename_loop w dir l1) as [w1 [e|]]; [reflexivity|].
  now rewrite rename_loop_cons, N.
Qed.

(** An entry that [isfile] rejects prints nothing. *)
Lemma listing_loop_app (w : W) (dir_path mypath : string) (l1 l2 : list string) :
  listing_loop w dir_path mypath (l1 ++ l2) =
  (listing_loop w dir_path mypath l1 ++ listing_loop w dir_path mypath l2)%list.
Proof.
  induction l1 as [|f l1 IH]; simpl; [reflexivity|].
  destruct (isfile w (join mypath f)); simpl; now rewrite IH.
Qed.

Lemma listing_loop_skip (w : W) (dir_path mypath f : string) (l1 l2 : list string) :
  isfile w (join mypath f) = false ->
  listing_loop w dir_path mypath (l1 ++ f :: l2) =
  listing_loop w dir_path mypath (l1 ++ l2).
Proof.
  intros N. rewrite !listing_loop_app. simpl. now rewrite N.
Qed.

Lemma listing_loop_filter (w : W) (dir_path mypath : string) (l : list string) :
  listing_loop w dir_path mypath l =
  map (fun f => join dir_path (join mypath f))
      (filter (fun f => isfile w (join mypath f)) l).
Proof.
  induction l as [|f l IH]; simpl; [reflexivity|].
  destruct (isfile w (join mypath f)); simpl; now rewrite IH.
Qed.

End AnyOS.

End LoopFacts.

(* ================================================================== *)
(** ** The rename loop on the entries of the directory *)

Module EntryFacts.
Import PyStr PosixPath Script Posix StrFacts NameFacts PosixFacts LoopFacts.

Lemma nodupb_NoDup (l : list string) : nodupb l = true -> NoDup l.
Proof.
  induction l as [|x l IH]; simpl; [constructor|].
  intros E; apply andb_true_iff in E as [E1 E2].
  constructor; [|now apply IH].
  intros I. apply negb_true_iff in E1.
  assert (existsb (String.eqb x) l = true)
    by (apply existsb_exists; exists x; split; [assumption | apply String.eqb_refl]).
  congruence.
Qed.

Lemma wf_inv (w : world) :
  wf w = true ->
  NoDup (names (content w)) /\ forallb valid_name (names (content w)) = true.
Proof.
  unfold wf; intros E; apply andb_true_iff in E as [E1 E2].
  split; [now apply nodupb_NoDup | assumption].
Qed.

Lemma with_content_same (w : world) : with_content w (content w) = w.
Proof. now destruct w. Qed.

(** *** [get], [remove], [rename_entry] *)

Lemma get_remove (k x : string) (es : entries) :
  get x (remove k es) = if String.eqb x k then None else get x es.
Proof.
  induction es as [|[k' n] es IH]; simpl.
  - now destruct (String.eqb x k).
  - destruct (String.eqb_spec k' k) as [->|N]; simpl.
    + rewrite IH. destruct (String.eqb_spec x k) as [->|N']; [reflexivity|].
      destruct (String.eqb_spec k x); congruence.
    + rewrite IH. destruct (String.eqb_spec k' x) as [->|N']; [|reflexivity].
      destruct (String.eqb_spec x k); congruence.
Qed.

Lemma get_In (k : string) (n : node) (es : entries) :
  get k es = Some n -> In (k, n) es.
Proof.
  induction es as [|[k' m] es IH]; simpl; [discriminate|].
  destruct (String.eqb_spec k' k) as [->|N].
  - intros [= ->]; now left.
  - intros E; right; now apply IH.
Qed.

Lemma get_names (k : string) (es : entries) :
  In k (names es) <-> get k es <> None.
Proof.
  induction es as [|[k' m] es IH]; simpl; [tauto|].
  destruct (String.eqb_spec k' k) as [->|N].
  - split; [discriminate | auto].
  - rewrite <- IH. tauto.
Qed.

Lemma NoDup_get (k : string) (n : node) (es : entries) :
  NoDup (names es) -> In (k, n) es -> get k es = Some n.
Proof.
  induction es as [|[k' m] es IH]; simpl; [tauto|].
  intros ND [E|I].
  - injection E as -> ->. now rewrite String.eqb_refl.
  - inversion ND as [|? ? Hn Hd]; subst.
    destruct (String.eqb_spec k' k) as [->|N]; [|now apply IH].
    exfalso; apply Hn. change k with (fst (k, n)). now apply in_map.
Qed.

(** A rename that succeeds puts the node of [src] under [dst], takes
    [src] away and keeps every other name. *)
Lemma rename_entry_get (wr : bool) (es es' : entries) (src dst : string) :
  rename_entry wr es src dst = Ok es' ->
  forall x, get x es' =
            if String.eqb x dst then get src es
            else if String.eqb x src then None
            else get x es.
Proof.
  unfold rename_entry. destruct (get src es) as [n|] eqn:Gs; [|discriminate].
  destruct (String.eqb_spec src dst) as [->|N].
  - intros [= <-] x. destruct (String.eqb_spec x dst) as [->|]; [assumption|reflexivity].
  - destruct (negb wr); [discriminate|].
    assert (M : forall x,
               get x ((dst, n) :: remove dst (remove src es)) =
               if String.eqb x dst then Some n
               else if String.eqb x src then None else get x es).
    { intros x. simpl. rewrite (String.eqb_sym dst x), !get_remove.
      now destruct (String.eqb x dst). }
    destruct n as [d|ch|]; destruct (get dst es) as [[d'|[|c ch']|]|];
      try discriminate; intros [= <-]; exact M.
Qed.

Lemma rename_entry_same (wr : bool) (es : entries) (f : string) :
  In f (names es) -> rename_entry wr es f f = Ok es.
Proof.
  intros I. apply get_names in I. unfold rename_entry.
  destruct (get f es); [|congruence]. now rewrite String.eqb_refl.
Qed.

Lemma rename_entry_same_result (wr : bool) (es es' : entries) (f : string) :
  rename_entry wr es f f = Ok es' -> es' = es.
Proof.
  unfold rename_entry. destruct (get f es); [|discriminate].
  rewrite String.eqb_refl. now intros [= <-].
Qed.

(** *** The loop on worlds is the loop on entries *)

Lemma posix_rename_entry (w : world) (dir f g : string) :
  locate w dir = TheDir -> valid_name f = true -> valid_name g = true ->
  rename w (join dir f) (join dir g) =
  match rename_entry (writable w) (content w) f g with
  | Ok es => Ok (with_content w es)
  | Raise e => Raise e
  end.
Proof.
  intros L Vf Vg. simpl. unfold posix_rename.
  now rewrite (locate_join_entry _ _ _ L Vf), (locate_join_entry _ _ _ L Vg).
Qed.

Lemma rename_loop_entries (w : world) (dir : string) (l : list string) :
  locate w dir = TheDir -> forallb valid_name l = true ->
  rename_loop w dir l =
  (with_content w (fst (rename_entries (writable w) (content w) l)),
   snd (rename_entries (writable w) (content w) l)).
Proof.
  intros L. revert w L; induction l as [|f l IH]; intros w L V.
  - simpl. now rewrite with_content_same.
  - simpl in V. apply andb_true_iff in V as [Vf V].
    rewrite rename_loop_cons. simpl rename_entries.
    destruct (is_jpg f) eqn:J; [|now apply IH].
    rewrite (posix_rename_entry _ _ _ _ L Vf (new_name_valid _ Vf J)).
    destruct (rename_entry (writable w) (content w) f (new_name f)) as [es|e].
    + rewrite (IH (with_content w es)) by assumption. reflexivity.
    + simpl. now rewrite with_content_same.
Qed.

End EntryFacts.

(* ================================================================== *)
(** ** What a pass does to the directory *)

Module PassFacts.
Import PyStr PosixPath Script Posix StrFacts NameFacts PosixFacts LoopFacts EntryFacts.

Lemma rename_entries_app (wr : bool) (es : entries) (l1 l2 : list string) :
  rename_entries wr es (l1 ++ l2) =
  match rename_entries wr es l1 with
  | (es1, None) => rename_entries wr es1 l2
  | (es1, Some e) => (es1, Some e)
  end.
Proof.
  revert es; induction l1 as [|f l1 IH]; intros es; simpl; [reflexivity|].
  destruct (is_jpg f); [|apply IH].
  destruct (rename_entry wr es f (new_name f)); [apply IH | reflexivity].
Qed.

(** A name that is neither the source nor the target of a rename of
    the loop keeps its node, whether the loop completes or not. *)
Lemma rename_entries_frame (wr : bool) (es : entries) (l : list string) (x : string) :
  (forall g, In g l -> is_jpg g = true -> g <> x /\ new_name g <> x) ->
  get x (fst (rename_entries wr es l)) = get x es.
Proof.
  revert es; induction l as [|f l IH]; intros es Hx; simpl; [reflexivity|].
  assert (Hl : forall g, In g l -> is_jpg g = true -> g <> x /\ new_name g <> x)
    by (intros g I; apply Hx; now right).
  destruct (is_jpg f) eqn:J; [|now apply IH].
  destruct (rename_entry wr es f (new_name f)) as [es1|e] eqn:R; [|reflexivity].
  rewrite (IH es1 Hl), (rename_entry_get _ _ _ _ _ R).
  destruct (Hx f (or_introl eq_refl) J) as [N1 N2].
  destruct (String.eqb_spec x (new_name f)); [congruence|].
  destruct (String.eqb_spec x f); congruence.
Qed.

(** The last entry renamed to a name is the one found under that
    name after a completed loop, unless it already had that name. *)
Lemma rename_entries_last (wr : bool) (es es' : entries)
      (l1 l2 : list string) (f : string) :
  NoDup (l1 ++ f :: l2) ->
  is_jpg f = true -> new_name f <> f ->
  (forall g, In g l2 -> is_jpg g = true -> new_name g <> new_name f) ->
  rename_entries wr es (l1 ++ f :: l2) = (es', None) ->
  get (new_name f) es' = get f es /\ get f es' = None.
Proof.
  intros ND J NF Hl2. rewrite rename_entries_app.
  pose proof (rename_entries_frame wr es l1 f) as F1.
  destruct (rename_entries wr es l1) as [es1 [e|]]; [discriminate|].
  simpl. rewrite J.
  destruct (rename_entry wr es1 f (new_name f)) as [es2|e] eqn:R; [|discriminate].
  intros E2.
  pose proof (rename_entries_frame wr es2 l2) as F2. rewrite E2 in F2.
  simpl in F1, F2.
  assert (Nf : ~ In f (l1 ++ l2)) by now apply NoDup_remove_2.
  assert (Tf : forall g, is_jpg g = true -> new_name g <> f).
  { intros g Jg E. apply NF. rewrite <- E. apply new_name_fixed; [assumption|].
    now rewrite E. }
  split.
  - rewrite F2.
    + rewrite (rename_entry_get _ _ _ _ _ R), String.eqb_refl. apply F1.
      intros g I Jg. split; [|now apply Tf].
      intros ->. apply Nf, in_or_app. now left.
    + intros g I Jg. split; [|now apply Hl2].
      intros ->. apply (Hl2 _ I Jg). now apply new_name_fixed.
  - rewrite F2.
    + rewrite (rename_entry_get _ _ _ _ _ R).
      destruct (String.eqb_spec f (new_name f)); [congruence|].
      now rewrite String.eqb_refl.
    + intros g I Jg. split; [|now apply Tf].
      intros ->. apply Nf, in_or_app. now right.
Qed.

(** An entry whose target no other entry shares ends under its target
    name when the loop completes. *)
Lemma rename_entries_unique (wr : bool) (es es' : entries)
      (l : list string) (f : string) :
  NoDup l -> In f l -> is_jpg f = true ->
  (forall g, In g l -> is_jpg g = true -> new_name g = new_name f -> g = f) ->
  rename_entries wr es l = (es', None) ->
  get (new_name f) es' = get f es /\ (new_name f <> f -> get f es' = None).
Proof.
  intros ND I J U E.
  destruct (in_split _ _ I) as (l1 & l2 & ->).
  assert (Nf : ~ In f (l1 ++ l2)) by now apply NoDup_remove_2.
  assert (H2 : forall g, In g l2 -> is_jpg g = true -> new_name g <> new_name f).
  { intros g Ig Jg Eg. apply Nf, in_or_app. right.
    rewrite <- (U g) by (try (apply in_or_app; right; right); assumption).
    assumption. }
  destruct (string_dec (new_name f) f) as [Fx|NF].
  - split; [|congruence]. rewrite Fx in *.
    revert E. rewrite rename_entries_app.
    pose proof (rename_entries_frame wr es l1 f) as F1.
    destruct (rename_entries wr es l1) as [es1 [e|]]; [discriminate|].
    simpl. rewrite J, Fx.
    destruct (rename_entry wr es1 f f) as [es2|e] eqn:R; [|discriminate].
    apply rename_entry_same_result in R; subst es2. intros E2.
    pose proof (rename_entries_frame wr es1 l2 f) as F2. rewrite E2 in F2.
    simpl in F1, F2. rewrite F2, F1; [reflexivity| |].
    + intros g Ig Jg.
      assert (g <> f) by (intros ->; apply Nf, in_or_app; now left).
      split; [assumption|]. intros Eg. apply H. apply U; try assumption.
      apply in_or_app; now left.
    + intros g Ig Jg.
      assert (g <> f) by (intros ->; apply Nf, in_or_app; now right).
      split; [assumption|]. intros Eg. now apply (H2 g Ig Jg).
  - destruct (rename_entries_last wr es es' l1 l2 f ND J NF H2 E) as [A B].
    split; [assumption | intros _; assumption].
Qed.

(** Entries that already have their target name are renamed onto
    themselves, which changes nothing. *)
Lemma posix_rename_same (w w' : world) (p : string) :
  rename w p p = Ok w' -> w' = w.
Proof.
  simpl. unfold posix_rename.
  destruct (locate w p) as [|f|]; try discriminate.
  destruct (rename_entry (writable w) (content w) f f) as [es|e] eqn:R; [|discriminate].
  apply rename_entry_same_result in R; subst es.
  intros [= <-]. apply with_content_same.
Qed.

Lemma rename_loop_fixed (w : world) (dir : string) (l : list string) :
  (forall f, In f l -> is_jpg f = true -> new_name f = f) ->
  fst (rename_loop w dir l) = w.
Proof.
  induction l as [|f l IH]; intros Hl; [reflexivity|].
  assert (Hl' : forall g, In g l -> is_jpg g = true -> new_name g = g)
    by (intros g I; apply Hl; now right).
  rewrite rename_loop_cons.
  destruct (is_jpg f) eqn:J; [|now apply IH].
  rewrite (Hl f (or_introl eq_refl) J).
  destruct (rename w (join dir f) (join dir f)) as [w'|e] eqn:R; [|reflexivity].
  apply posix_rename_same in R; subst w'. now apply IH.
Qed.

(** After a completed loop over the listing, every [.jpg] name of the
    directory is its own target. *)
Lemma rename_entries_settled (wr : bool) (es es' : entries) (l : list string) :
  rename_entries wr es l = (es', None) ->
  (forall x, In x (names es) -> is_jpg x = true -> In x l \/ new_name x = x) ->
  forall x, In x (names es') -> is_jpg x = true -> new_name x = x.
Proof.
  revert es; induction l as [|f l IH]; intros es E Inv; simpl in E.
  - injection E as <-. intros x I J. destruct (Inv x I J) as [[]|]; assumption.
  - destruct (is_jpg f) eqn:J.
    + destruct (rename_entry wr es f (new_name f)) as [es1|e] eqn:R; [|discriminate].
      apply (IH es1 E). intros x I Jx.
      apply get_names in I. rewrite (rename_entry_get _ _ _ _ _ R) in I.
      destruct (string_dec x (new_name f)) as [Ex|N].
      * right. rewrite Ex in *. now apply new_name_fixed.
      * apply String.eqb_neq in N. rewrite N in I.
        destruct (string_dec x f) as [Ef|N'].
        { rewrite Ef, String.eqb_refl in I. congruence. }
        pose proof N' as N''. apply String.eqb_neq in N''. rewrite N'' in I.
        apply get_names in I. destruct (Inv x I Jx) as [[Ef|]|]; auto; congruence.
    + apply (IH es E). intros x I Jx.
      destruct (Inv x I Jx) as [[->|]|]; auto; congruence.
Qed.

(** In a writable directory that holds regular files only, no rename
    of the loop fails. *)
Lemma rename_entries_files (es : entries) (l : list string) :
  (forall k n, get k es = Some n -> is_file n = true) ->
  (forall f, In f l -> get f es <> None) ->
  NoDup l ->
  snd (rename_entries true es l) = None.
Proof.
  revert es; induction l as [|f l IH]; intros es Fi Ex ND; simpl; [reflexivity|].
  inversion ND as [|? ? Nf ND']; subst.
  assert (Ex' : forall g, In g l -> get g es <> None)
    by (intros g I; apply Ex; now right).
  destruct (is_jpg f); [|now apply IH].
  destruct (rename_entry true es f (new_name f)) as [es1|e] eqn:R.
  - pose proof (rename_entry_get _ _ _ _ _ R) as G.
    apply IH; [| |assumption].
    + intros k n. rewrite G.
      destruct (String.eqb k (new_name f)); [apply Fi|].
      destruct (String.eqb k f); [discriminate | apply Fi].
    + intros g I. rewrite G.
      destruct (String.eqb g (new_name f)); [apply Ex; now left|].
      destruct (String.eqb_spec g f) as [->|]; [contradiction | now apply Ex'].
  - exfalso. revert R. unfold rename_entry.
    destruct (get f es) as [n|] eqn:Gf; [|intros _; now apply (Ex f (or_introl eq_refl))].
    destruct (String.eqb f (new_name f)); [discriminate|]. simpl.
    pose proof (Fi _ _ Gf) as Hn.
    destruct n as [d| |]; try discriminate.
    destruct (get (new_name f) es) as [[d'|ch|]|] eqn:Gt; try discriminate.
    now apply Fi in Gt.
Qed.

End PassFacts.

(* ================================================================== *)
(** ** The passes on a well-formed directory *)

Module RunFacts.
Import PyStr PosixPath Script Posix StrFacts NameFacts PosixFacts LoopFacts EntryFacts PassFacts.

Lemma posix_isfile_entry (w : world) (dir f : string) :
  locate w dir = TheDir -> valid_name f = true ->
  isfile w (join dir f) =
  match get f (content w) with Some n => is_file n | None => false end.
Proof.
  intros L V. simpl. unfold posix_isfile.
  rewrite (locate_join_entry _ _ _ L V).
  destruct (get f (content w)) as [[d|ch|]|]; reflexivity.
Qed.

Lemma filter_regular (w : world) (dir : string) (es : entries) :
  NoDup (names (content w)) -> locate w dir = TheDir ->
  forallb valid_name (names es) = true -> incl es (content w) ->
  filter (fun f => isfile w (join dir f)) (names es) = regular es.
Proof.
  intros ND L. induction es as [|[k n] es IH]; intros V I; [reflexivity|].
  simpl in V. apply andb_true_iff in V as [Vk V].
  assert (I' : incl es (content w)) by (intros e He; apply I; now right).
  cbn [names map fst filter]. rewrite (posix_isfile_entry _ _ _ L Vk).
  rewrite (NoDup_get k n (content w) ND (I _ (or_introl eq_refl))).
  assert (Rc : regular ((k, n) :: es) =
               if is_file n then k :: regular es else regular es)
    by (unfold regular; simpl; now destruct (is_file n)).
  rewrite Rc. change (map fst es) with (names es). now rewrite (IH V I').
Qed.

Lemma listing_pass_posix (w : world) (dir_path mypath : string) :
  wf w = true -> locate w mypath = TheDir -> readable w = true ->
  listing_pass w dir_path mypath =
  Ok (map (fun f => join dir_path (join mypath f)) (regular (content w))).
Proof.
  intros Wf L R. destruct (wf_inv _ Wf) as [ND V].
  unfold listing_pass. simpl listdir. unfold posix_listdir. rewrite L, R.
  rewrite listing_loop_filter.
  now rewrite (filter_regular w mypath (content w) ND L V (incl_refl _)).
Qed.

Lemma rename_pass_posix (w : world) (dir : string) :
  wf w = true -> locate w dir = TheDir -> readable w = true ->
  rename_pass w dir =
  (with_content w
     (fst (rename_entries (writable w) (content w) (names (content w)))),
   snd (rename_entries (writable w) (content w) (names (content w)))).
Proof.
  intros Wf L R. destruct (wf_inv _ Wf) as [ND V].
  unfold rename_pass. simpl listdir. unfold posix_listdir. rewrite L, R.
  now apply rename_loop_entries.
Qed.

Lemma rename_pass_unreadable (w : world) (dir : string) :
  locate w dir = TheDir -> readable w = false ->
  rename_pass w dir = (w, Some (OSError EACCES)).
Proof.
  intros L R. unfold rename_pass. simpl listdir. unfold posix_listdir.
  now rewrite L, R.
Qed.

(** The names of the directory stay legal along the loop. *)
Lemma rename_entries_valid (wr : bool) (es : entries) (l : list string) :
  (forall x, In x (names es) -> valid_name x = true) ->
  (forall f, In f l -> valid_name f = true) ->
  forall x, In x (names (fst (rename_entries wr es l))) -> valid_name x = true.
Proof.
  revert es; induction l as [|f l IH]; intros es Ve Vl; simpl; [assumption|].
  assert (Vl' : forall g, In g l -> valid_name g = true)
    by (intros g I; apply Vl; now right).
  destruct (is_jpg f) eqn:J; [|now apply IH].
  destruct (rename_entry wr es f (new_name f)) as [es1|e] eqn:R; [|assumption].
  apply IH; [|assumption].
  intros x I. apply get_names in I. rewrite (rename_entry_get _ _ _ _ _ R) in I.
  destruct (String.eqb_spec x (new_name f)) as [E|N].
  - rewrite E. apply new_name_valid; [apply Vl; now left | assumption].
  - destruct (String.eqb x f); [congruence|]. now apply Ve, get_names.
Qed.

Lemma rename_entries_fixed_ok (wr : bool) (es : entries) (l : list string) :
  (forall f, In f l -> In f (names es)) ->
  (forall f, In f l -> is_jpg f = true -> new_name f = f) ->
  rename_entries wr es l = (es, None).
Proof.
  induction l as [|f l IH]; intros Ex Fx; simpl; [reflexivity|].
  assert (IH' : rename_entries wr es l = (es, None))
    by (apply IH; intros g I; [apply Ex | apply Fx]; now right).
  destruct (is_jpg f) eqn:J; [|assumption].
  rewrite (Fx f (or_introl eq_refl) J).
  now rewrite (rename_entry_same wr es f (Ex f (or_introl eq_refl))).
Qed.

(** A pass that completed has nothing left to do: the next pass
    completes too and changes nothing. *)
Lemma rename_pass_twice (w w1 : world) (dir : string) :
  wf w = true -> locate w dir = TheDir ->
  rename_pass w dir = (w1, None) -> rename_pass w1 dir = (w1, None).
Proof.
  intros Wf L E. destruct (wf_inv _ Wf) as [ND V].
  destruct (readable w) eqn:R;
    [|rewrite (rename_pass_unreadable _ _ L R) in E; discriminate].
  rewrite (rename_pass_posix _ _ Wf L R) in E.
  destruct (rename_entries (writable w) (content w) (names (content w)))
    as [es1 r] eqn:E1.
  simpl in E. injection E as <- ->.
  assert (Fx : forall x, In x (names es1) -> is_jpg x = true -> new_name x = x).
  { apply (rename_entries_settled _ _ _ _ E1). intros x I _. now left. }
  assert (V1 : forall x, In x (names es1) -> valid_name x = true).
  { pose proof (rename_entries_valid (writable w) (content w) (names (content w))) as H.
    rewrite E1 in H. apply H; intros x I;
      exact (proj1 (forallb_forall _ _) V x I). }
  unfold rename_pass. simpl listdir. unfold posix_listdir.
  rewrite locate_with_content, L. simpl readable. rewrite R.
  rewrite rename_loop_entries;
    [|assumption | apply forallb_forall; exact V1].
  simpl content. simpl writable.
  rewrite (rename_entries_fixed_ok (writable w) es1 (names es1) (fun f I => I) Fx).
  reflexivity.
Qed.

End RunFacts.

(* ================================================================== *)
(** ** Properties of the two passes *)

Import PyStr PosixPath PosixPathNames Script Posix.
Import StrFacts NameFacts PosixFacts LoopFacts EntryFacts PassFacts RunFacts.

(** *** The listing pass *)

(** C1.  The listing pass does not print the absolute paths of the
    regular files of the directory when the argument is relative: run
    from [/home/u] with the argument [pics] by a script stored in
    [/opt/tool], it prints [/opt/tool/pics/a.txt] for the regular file
    whose absolute path is [/home/u/pics/a.txt], the file [isfile] was
    asked about; the printed path names no file. *)
Theorem listing_prefixes_script_directory :
  stdout (main plain_pics "/opt/tool/utils.py" ["utils.py"; "pics"])
  = ["/opt/tool/pics/a.txt"]
  /\ map (abs_entry plain_pics) (regular (content plain_pics))
     = ["/home/u/pics/a.txt"]
  /\ isfile plain_pics (join "pics" "a.txt") = true
  /\ isfile plain_pics "/home/u/pics/a.txt" = true
  /\ isfile plain_pics "/opt/tool/pics/a.txt" = false.
Proof. repeat split; vm_compute; reflexivity. Qed.

(** C8.  When the argument is an absolute path that denotes the
    directory, the listing pass prints, whatever the directory of the
    script, [join mypath f] for each regular file [f] in listing order;
    each printed path is absolute and names that regular file. *)
Theorem listing_absolute_argument :
  forall (w : world) (dir_path mypath : string),
    isabs mypath = true ->
    wf w = true -> locate w mypath = TheDir -> readable w = true ->
    listing_pass w dir_path mypath
    = Ok (map (join mypath) (regular (content w)))
    /\ Forall (fun f => isabs (join mypath f) = true
                        /\ locate w (join mypath f) = InDir f
                        /\ isfile w (join mypath f) = true)
              (regular (content w)).
Proof.
  intros w dir_path mypath A Wf L R. destruct (wf_inv _ Wf) as [ND V].
  assert (Abs : forall f, isabs (join mypath f) = true).
  { intros f. unfold isabs, join.
    destruct (startswith f "/") eqn:Sf; [assumption|].
    destruct mypath as [|c m]; [discriminate|].
    destruct (_ || _)%bool; exact A. }
  split.
  - rewrite (listing_pass_posix _ _ _ Wf L R). f_equal.
    apply map_ext. intros f. unfold join at 1.
    pose proof (Abs f) as Af. unfold isabs in Af. now rewrite Af.
  - apply Forall_forall. intros f I.
    rewrite <- (filter_regular w mypath (content w) ND L V (incl_refl _)) in I.
    apply filter_In in I as [I F].
    repeat split; [apply Abs | | exact F].
    apply locate_join_entry; [assumption|].
    exact (proj1 (forallb_forall _ _) V f I).
Qed.

Lemma listing_absolute_argument_witness :
  listing_pass plain_pics "/opt/tool" "/home/u/pics"
  = Ok ["/home/u/pics/a.txt"]
  /\ Forall (fun f => isabs (join "/home/u/pics" f) = true
                      /\ locate plain_pics (join "/home/u/pics" f) = InDir f
                      /\ isfile plain_pics (join "/home/u/pics" f) = true)
            ["a.txt"].
Proof.
  exact (listing_absolute_argument plain_pics "/opt/tool" "/home/u/pics"
           eq_refl eq_refl eq_refl eq_refl).
Defined.

(** A subdirectory is never printed. *)
Lemma listing_excludes_directories (w : world) (dir_path mypath f : string)
      (ch : list string) (l1 l2 : list string) :
  locate w mypath = TheDir -> valid_name f = true ->
  get f (content w) = Some (Dir ch) ->
  listing_loop w dir_path mypath (l1 ++ f :: l2)
  = listing_loop w dir_path mypath (l1 ++ l2).
Proof.
  intros L V G. apply listing_loop_skip.
  now rewrite (posix_isfile_entry _ _ _ L V), G.
Qed.

(** C2.  The rename pass does not exclude directories: in a directory
    with the subdirectory [A_B.jpg] and the file [note.txt], the
    listing pass prints the file only, and the rename pass moves the
    subdirectory to [a.jpg]. *)
Theorem rename_pass_moves_directory :
  stdout (main album_pics "/home/u/utils.py" ["utils.py"; "pics"])
  = ["/home/u/pics/note.txt"]
  /\ fault (main album_pics "/home/u/utils.py" ["utils.py"; "pics"]) = None
  /\ get "A_B.jpg" (content album_pics) = Some (Dir ["inner.txt"])
  /\ get "A_B.jpg"
       (content (final (main album_pics "/home/u/utils.py" ["utils.py"; "pics"])))
     = None
  /\ get "a.jpg"
       (content (final (main album_pics "/home/u/utils.py" ["utils.py"; "pics"])))
     = Some (Dir ["inner.txt"]).
Proof. repeat split; vm_compute; reflexivity. Qed.

(** *** The rename pass: names *)

(** C3.  For an entry [f] whose extension is exactly [.jpg], with base
    name [base]: the new name is the part of [base] before its first
    underscore (all of [base] when it has none), in lower case, with
    [.jpg] appended; the loop calls [rename] from [f] to that name; a
    call that succeeds puts the entry under the new name; and when the
    pass completes and no other entry has the same new name, the entry
    is found under its new name afterwards. *)
Theorem rename_jpg_entry :
  forall (f base : string),
    splitext f = (base, ".jpg") ->
    (exists prefix rest,
        base = prefix ++ rest
        /\ no_char "_" prefix = true
        /\ (rest = "" \/ startswith rest "_" = true)
        /\ new_name f = lower prefix ++ ".jpg")
    /\ (no_char "_" base = true -> new_name f = lower base ++ ".jpg")
    /\ (forall (W : Type) (os : OS W) (w : W) (dir : string) (rest : list string),
           rename_loop w dir (f :: rest)
           = match rename w (join dir f) (join dir (new_name f)) with
             | Ok w' => rename_loop w' dir rest
             | Raise e => (w, Some e)
             end)
    /\ (forall (w w' : world) (dir : string),
           locate w dir = TheDir -> valid_name f = true ->
           rename w (join dir f) (join dir (new_name f)) = Ok w' ->
           get (new_name f) (content w') = get f (content w)
           /\ (new_name f <> f -> get f (content w') = None))
    /\ (forall (w w' : world) (dir : string),
           wf w = true -> locate w dir = TheDir ->
           In f (names (content w)) ->
           (forall g, In g (names (content w)) -> is_jpg g = true ->
                      new_name g = new_name f -> g = f) ->
           rename_pass w dir = (w', None) ->
           get (new_name f) (content w') = get f (content w)
           /\ (new_name f <> f -> get f (content w') = None)).
Proof.
  intros f base E. pose proof (is_jpg_root _ _ E) as J.
  repeat apply conj.
  - destruct (split_hd_spec "_" base) as (rest & Eb & N & R).
    exists (hd "" (split "_" base)), rest.
    repeat split; try assumption. now apply new_name_jpg.
  - intros N. now rewrite (new_name_jpg _ _ E), (split_no_char _ _ N).
  - intros W os w dir rest. now rewrite rename_loop_cons, J.
  - intros w w' dir L V R.
    rewrite (posix_rename_entry _ _ _ _ L V (new_name_valid _ V J)) in R.
    destruct (rename_entry (writable w) (content w) f (new_name f))
      as [es|e] eqn:Re; [|discriminate].
    injection R as <-. simpl content.
    rewrite !(rename_entry_get _ _ _ _ _ Re), String.eqb_refl.
    split; [reflexivity|]. intros NF.
    destruct (String.eqb_spec f (new_name f));
      [congruence | now rewrite String.eqb_refl].
  - intros w w' dir Wf L I U P. destruct (wf_inv _ Wf) as [ND V].
    destruct (readable w) eqn:R;
      [|rewrite (rename_pass_unreadable _ _ L R) in P; discriminate].
    rewrite (rename_pass_posix _ _ Wf L R) in P.
    destruct (rename_entries (writable w) (content w) (names (content w)))
      as [es r] eqn:Er.
    simpl in P. injection P as <- ->. simpl content.
    exact (rename_entries_unique _ _ _ _ _ ND I J U Er).
Qed.

Lemma rename_jpg_entry_witness :
  get "x.jpg" (content (fst (rename_pass photo_pics "pics"))) = Some (File "1")
  /\ get "X_Y.jpg" (content (fst (rename_pass photo_pics "pics"))) = None.
Proof.
  destruct (rename_jpg_entry "X_Y.jpg" "X_Y" eq_refl) as (_ & _ & _ & _ & P).
  destruct (P photo_pics (fst (rename_pass photo_pics "pics")) "pics"
              eq_refl eq_refl) as [A B].
  - simpl; auto.
  - intros g [<-|[<-|[]]] _ E; [reflexivity | vm_compute in E; discriminate].
  - reflexivity.
  - split; [exact A | apply B; vm_compute; discriminate].
Defined.

(** The second example of the specification. *)
Example photo_becomes_lowercase :
  new_name "Photo.jpg" = "photo.jpg"
  /\ get "photo.jpg" (content (fst (rename_pass photo_pics "pics")))
     = Some (File "2").
Proof. split; vm_compute; reflexivity. Qed.

(** C10.  The new name of a [.jpg] entry is in normal form: it is
    [p ++ ".jpg"] for a [p] without underscore and without upper-case
    letter; when that name has the extension [.jpg] its base name is
    [p] and its own new name is itself; so the pass leaves a directory
    alone at an entry that bears such a name. *)
Theorem new_name_normal_form :
  forall (f : string),
    is_jpg f = true ->
    exists p,
      new_name f = p ++ ".jpg"
      /\ no_char "_" p = true
      /\ no_upper p = true
      /\ (is_jpg (new_name f) = true ->
          splitext (new_name f) = (p, ".jpg")
          /\ new_name (new_name f) = new_name f)
      /\ (forall (w : world) (dir : string),
             fst (rename_loop w dir [new_name f]) = w).
Proof.
  intros f J. destruct (new_name_normal _ J) as (p & E & N & U).
  exists p. repeat apply conj; try assumption.
  - intros J'. split; [|now apply new_name_fixed].
    rewrite E in *. now apply jpg_root.
  - intros w dir. apply rename_loop_fixed.
    intros g [<-|[]] J'. now apply new_name_fixed.
Qed.

Lemma new_name_normal_form_witness :
  exists p,
    new_name "X_Y.jpg" = p ++ ".jpg"
    /\ no_char "_" p = true
    /\ no_upper p = true
    /\ (is_jpg (new_name "X_Y.jpg") = true ->
        splitext (new_name "X_Y.jpg") = (p, ".jpg")
        /\ new_name (new_name "X_Y.jpg") = new_name "X_Y.jpg")
    /\ (forall (w : world) (dir : string),
           fst (rename_loop w dir [new_name "X_Y.jpg"]) = w).
Proof. exact (new_name_normal_form "X_Y.jpg" eq_refl). Defined.

(** C9.  The entry named exactly [.jpg] is never renamed: [splitext]
    gives it the base name [.jpg] and the empty extension, so the loop
    runs as if the entry were not listed; the glossary's extension of
    that name is [jpg]. *)
Theorem dot_jpg_is_skipped :
  splitext ".jpg" = (".jpg", "")
  /\ is_jpg ".jpg" = false
  /\ glossary_extension ".jpg" = "jpg"
  /\ (forall (W : Type) (os : OS W) (w : W) (dir : string) (l1 l2 : list string),
         rename_loop w dir (l1 ++ ".jpg" :: l2) = rename_loop w dir (l1 ++ l2)).
Proof.
  repeat split; try reflexivity.
  intros W os w dir l1 l2. now apply rename_loop_skip.
Qed.

(** *** The rename pass: the directory *)

(** C4, as first stated, fails: the entry [.jpg] has the empty
    extension, and the pass puts the contents of [_x.jpg] under its
    name. *)
Lemma non_jpg_entry_overwritten :
  ~ (forall (w : world) (dir f : string),
        wf w = true -> locate w dir = TheDir ->
        In f (names (content w)) -> is_jpg f = false ->
        get f (content (fst (rename_pass w dir))) = get f (content w)).
Proof.
  intros H.
  specialize (H dot_pics "pics" ".jpg" eq_refl eq_refl
                (or_intror (or_introl eq_refl)) eq_refl).
  vm_compute in H. discriminate.
Qed.

(** C4, amended.  An entry whose extension is not exactly [.jpg] is
    never the source of a rename: the loop runs as if the entry were
    not listed; and the entry keeps its node through the pass when no
    [.jpg] entry of the directory has its name as new name. *)
Theorem non_jpg_entry_kept :
  forall (f : string),
    is_jpg f = false ->
    (forall (W : Type) (os : OS W) (w : W) (dir : string) (l1 l2 : list string),
        rename_loop w dir (l1 ++ f :: l2) = rename_loop w dir (l1 ++ l2))
    /\ (forall (w : world) (dir : string),
           wf w = true -> locate w dir = TheDir ->
           (forall g, In g (names (content w)) -> is_jpg g = true ->
                      new_name g <> f) ->
           get f (content (fst (rename_pass w dir))) = get f (content w)).
Proof.
  intros f N. split.
  - intros W os w dir l1 l2. now apply rename_loop_skip.
  - intros w dir Wf L T.
    destruct (readable w) eqn:R;
      [|now rewrite (rename_pass_unreadable _ _ L R)].
    rewrite (rename_pass_posix _ _ Wf L R). simpl.
    apply rename_entries_frame. intros g I J. split; [|now apply T].
    intros ->. congruence.
Qed.

Lemma non_jpg_entry_kept_witness :
  rename_loop photo_pics "pics" ["X_Y.jpg"; "n.JPG"; "Photo.jpg"]
  = rename_loop photo_pics "pics" ["X_Y.jpg"; "Photo.jpg"]
  /\ get "README" (content (fst (rename_pass tidy_pics "pics")))
     = Some (File "3").
Proof.
  split.
  - exact (proj1 (non_jpg_entry_kept "n.JPG" eq_refl) world posix_os
             photo_pics "pics" ["X_Y.jpg"] ["Photo.jpg"]).
  - apply (proj2 (non_jpg_entry_kept "README" eq_refl) tidy_pics "pics"
             eq_refl eq_refl).
    intros g [<-|[<-|[<-|[]]]] _ E; vm_compute in E; discriminate.
Defined.

(** C5.  In a directory whose [.jpg] names all have a base name in
    lower case and without underscore, each such name is its own new
    name, the pass leaves the directory as it is, and a second pass
    does what the first did.  More generally, after a pass that
    completed, a second pass completes and leaves the directory as the
    first left it. *)
Theorem rename_twice_on_normal_names :
  forall (w : world) (dir : string),
    locate w dir = TheDir ->
    ((forall f base, In f (names (content w)) -> splitext f = (base, ".jpg") ->
                     no_upper base = true /\ no_char "_" base = true) ->
     (forall f, In f (names (content w)) -> is_jpg f = true ->
                new_name f = f /\ new_name (new_name f) = new_name f)
     /\ fst (rename_pass w dir) = w
     /\ rename_pass (fst (rename_pass w dir)) dir = rename_pass w dir)
    /\ (wf w = true ->
        forall w1, rename_pass w dir = (w1, None) ->
                   rename_pass w1 dir = (w1, None)).
Proof.
  intros w dir L. split.
  - intros Hn.
    assert (Fx : forall f, In f (names (content w)) -> is_jpg f = true ->
                           new_name f = f).
    { intros f I J. destruct (is_jpg_inv _ J) as (base & E & _).
      destruct (Hn f base I E) as [U N]. exact (normal_fixed _ _ E U N). }
    assert (S : fst (rename_pass w dir) = w).
    { unfold rename_pass. simpl listdir. unfold posix_listdir. rewrite L.
      destruct (readable w); [|reflexivity]. now apply rename_loop_fixed. }
    repeat split.
    + now apply Fx.
    + now rewrite !(Fx f) by assumption.
    + exact S.
    + now rewrite S.
  - intros Wf w1. now apply rename_pass_twice.
Qed.

Lemma rename_twice_on_normal_names_witness :
  fst (rename_pass tidy_pics "pics") = tidy_pics
  /\ rename_pass (fst (rename_pass tidy_pics "pics")) "pics"
     = rename_pass tidy_pics "pics"
  /\ rename_pass (fst (rename_pass photo_pics "pics")) "pics"
     = (fst (rename_pass photo_pics "pics"), None).
Proof.
  destruct (rename_twice_on_normal_names tidy_pics "pics" eq_refl) as [A _].
  destruct (rename_twice_on_normal_names photo_pics "pics" eq_refl) as [_ B].
  destruct A as (_ & S & T).
  - intros f base [<-|[<-|[<-|[]]]] E; vm_compute in E;
      try discriminate; injection E as <-; split; reflexivity.
  - split; [exact S | split; [exact T | exact (B eq_refl _ eq_refl)]].
Defined.

(** C6, as first stated, fails: with [a_1.jpg] listed before [a.jpg],
    both of new name [a.jpg], the pass raises nothing, but the name
    [a.jpg] ends with the contents of the entry processed first: the
    second rename is from [a.jpg] to itself. *)
Lemma later_source_already_named :
  ~ (forall (w : world) (dir : string) (l1 l2 l3 : list string) (f1 f2 : string),
        wf w = true -> locate w dir = TheDir -> readable w = true ->
        writable w = true ->
        forallb (fun e => is_file (snd e)) (content w) = true ->
        names (content w) = (l1 ++ f1 :: l2 ++ f2 :: l3)%list ->
        is_jpg f1 = true -> is_jpg f2 = true -> new_name f1 = new_name f2 ->
        (forall g, In g l3 -> is_jpg g = true -> new_name g <> new_name f2) ->
        snd (rename_pass w dir) = None
        /\ get (new_name f2) (content (fst (rename_pass w dir)))
           = get f2 (content w)).
Proof.
  intros H.
  destruct (H clash_pics "pics" [] [] [] "a_1.jpg" "a.jpg"
              eq_refl eq_refl eq_refl eq_refl eq_refl eq_refl
              eq_refl eq_refl eq_refl (fun g I => match I with end))
    as [_ G].
  vm_compute in G. discriminate.
Qed.

(** C6, amended.  Let two [.jpg] entries have the same new name, the
    one processed later not bearing that name already, and no entry
    processed after it having that new name.  In a writable directory
    of regular files the pass raises nothing; and whenever the pass
    completes, the new name refers to the node of the entry processed
    later, whose old name is gone. *)
Theorem later_rename_overwrites :
  forall (w : world) (dir : string) (l1 l2 l3 : list string) (f1 f2 : string),
    wf w = true -> locate w dir = TheDir -> readable w = true ->
    names (content w) = (l1 ++ f1 :: l2 ++ f2 :: l3)%list ->
    is_jpg f1 = true -> is_jpg f2 = true -> new_name f1 = new_name f2 ->
    new_name f2 <> f2 ->
    (forall g, In g l3 -> is_jpg g = true -> new_name g <> new_name f2) ->
    (writable w = true ->
     forallb (fun e => is_file (snd e)) (content w) = true ->
     snd (rename_pass w dir) = None)
    /\ (snd (rename_pass w dir) = None ->
        get (new_name f2) (content (fst (rename_pass w dir)))
        = get f2 (content w)
        /\ get f2 (content (fst (rename_pass w dir))) = None).
Proof.
  intros w dir l1 l2 l3 f1 f2 Wf L R Hl J1 J2 E NF H3.
  destruct (wf_inv _ Wf) as [ND V].
  rewrite (rename_pass_posix _ _ Wf L R). simpl fst. simpl snd. split.
  - intros Wr Fi. rewrite Wr. apply rename_entries_files; [| |assumption].
    + intros k n G. apply get_In in G.
      exact (proj1 (forallb_forall _ _) Fi (k, n) G).
    + intros f I. now apply get_names.
  - intros C. simpl content.
    destruct (rename_entries (writable w) (content w) (names (content w)))
      as [es r] eqn:Er.
    simpl in C. subst r. simpl fst.
    rewrite Hl in ND, Er.
    rewrite app_comm_cons, app_assoc in ND, Er.
    exact (rename_entries_last _ _ _ _ _ _ ND J2 NF H3 Er).
Qed.

Lemma later_rename_overwrites_witness :
  snd (rename_pass pair_pics "pics") = None
  /\ get "a.jpg" (content (fst (rename_pass pair_pics "pics"))) = Some (File "2")
  /\ get "A_2.jpg" (content (fst (rename_pass pair_pics "pics"))) = None.
Proof.
  destruct (later_rename_overwrites pair_pics "pics" [] [] [] "A_1.jpg" "A_2.jpg"
              eq_refl eq_refl eq_refl eq_refl eq_refl eq_refl eq_refl)
    as [A B].
  - vm_compute; discriminate.
  - intros g [].
  - split; [exact (A eq_refl eq_refl) | exact (B (A eq_refl eq_refl))].
Defined.

(** C7.  Nothing catches a failure of a filesystem call, whatever the
    filesystem.  When [os.listdir] raises, the listing pass raises that
    exception, the rename pass ends with it, and the run ends with it,
    nothing printed and nothing renamed.  When a rename raises after
    the renames for [l1] succeeded, the loop and the rename pass end
    with that exception in the world those renames produced, so does
    the run, and the entries listed after the failing one are not
    looked at.  The run passes on what either pass raises, and it ends
    without exception only when no call raised. *)
Theorem failures_end_the_run :
  forall (W : Type) (os : OS W) (w : W) (script a0 mypath : string)
         (more : list string),
    (forall e, listdir w mypath = Raise e ->
               (forall dir_path, listing_pass w dir_path mypath = Raise e)
               /\ rename_pass w mypath = (w, Some e)
               /\ main w script (a0 :: mypath :: more)
                  = {| stdout := []; final := w; fault := Some e |})
    /\ (forall (l1 l2 : list string) (f : string) (w1 : W) (e : exn),
           listdir w mypath = Ok (l1 ++ f :: l2)%list ->
           rename_loop w mypath l1 = (w1, None) ->
           is_jpg f = true ->
           rename w1 (join mypath f) (join mypath (new_name f)) = Raise e ->
           rename_loop w mypath (l1 ++ f :: l2) = (w1, Some e)
           /\ rename_pass w mypath = (w1, Some e)
           /\ main w script (a0 :: mypath :: more)
              = {| stdout := listing_loop w (dirname script) mypath (l1 ++ f :: l2);
                   final := w1; fault := Some e |}
           /\ forall l2', rename_loop w mypath (l1 ++ f :: l2')
                          = rename_loop w mypath (l1 ++ f :: l2))
    /\ (forall e, listing_pass w (dirname script) mypath = Raise e ->
                  main w script (a0 :: mypath :: more)
                  = {| stdout := []; final := w; fault := Some e |})
    /\ (forall (out : list string) (w' : W) (e : exn),
           listing_pass w (dirname script) mypath = Ok out ->
           rename_pass w mypath = (w', Some e) ->
           main w script (a0 :: mypath :: more)
           = {| stdout := out; final := w'; fault := Some e |})
    /\ (fault (main w script (a0 :: mypath :: more)) = None ->
        exists l, listdir w mypath = Ok l
                  /\ snd (rename_loop w mypath l) = None).
Proof.
  intros W os w script a0 mypath more. repeat apply conj.
  - intros e E. repeat apply conj.
    + intros dir_path. unfold listing_pass. now rewrite E.
    + unfold rename_pass. now rewrite E.
    + unfold main, listing_pass. cbn [nth_error]. now rewrite E.
  - intros l1 l2 f w1 e E E1 J R.
    assert (A : forall l, rename_loop w mypath (l1 ++ f :: l) = (w1, Some e))
      by (intros l; now rewrite rename_loop_app, E1, rename_loop_cons, J, R).
    repeat apply conj.
    + apply A.
    + unfold rename_pass. now rewrite E, A.
    + unfold main, listing_pass, rename_pass. cbn [nth_error].
      now rewrite E, A.
    + intros l2'. now rewrite !A.
  - intros e E. unfold main. cbn [nth_error]. now rewrite E.
  - intros out w' e E P. unfold main. cbn [nth_error]. now rewrite E, P.
  - unfold main, listing_pass, rename_pass. cbn [nth_error].
    destruct (listdir w mypath) as [l|e]; [|discriminate].
    destruct (rename_loop w mypath l) as [w' r] eqn:R. simpl.
    intros ->. exists l. now rewrite R.
Qed.

Lemma failures_end_the_run_witness :
  rename_pass blocked_pics "pics"
  = (fst (rename_loop blocked_pics "pics" ["A_1.jpg"]), Some (OSError EISDIR))
  /\ fault (main blocked_pics "/home/u/utils.py" ["utils.py"; "pics"])
     = Some (OSError EISDIR)
  /\ get "a.jpg"
       (content (final (main blocked_pics "/home/u/utils.py" ["utils.py"; "pics"])))
     = Some (File "1")
  /\ get "C_1.jpg"
       (content (final (main blocked_pics "/home/u/utils.py" ["utils.py"; "pics"])))
     = Some (File "3")
  /\ listing_pass (pics []) "/home/u" "missing" = Raise (OSError ENOENT)
  /\ rename_pass (pics []) "missing" = (pics [], Some (OSError ENOENT))
  /\ main (pics []) "/home/u/utils.py" ["utils.py"; "missing"]
     = {| stdout := []; final := pics []; fault := Some (OSError ENOENT) |}.
Proof.
  destruct (failures_end_the_run world posix_os blocked_pics
              "/home/u/utils.py" "utils.py" "pics" []) as (_ & B & _).
  assert (H1 : rename_loop blocked_pics "pics" ["A_1.jpg"]
               = (fst (rename_loop blocked_pics "pics" ["A_1.jpg"]), None))
    by (vm_compute; reflexivity).
  assert (H2 : rename (fst (rename_loop blocked_pics "pics" ["A_1.jpg"]))
                 (join "pics" "B_1.jpg") (join "pics" (new_name "B_1.jpg"))
               = Raise (OSError EISDIR))
    by (vm_compute; reflexivity).
  destruct (B ["A_1.jpg"] ["b.jpg"; "C_1.jpg"] "B_1.jpg" _ _
              eq_refl H1 eq_refl H2) as (_ & P & M & _).
  destruct (failures_end_the_run world posix_os (pics [])
              "/home/u/utils.py" "utils.py" "missing" []) as (A & _).
  destruct (A (OSError ENOENT) eq_refl) as (L0 & P0 & M0).
  split; [exact P|]. rewrite M.
  split; [reflexivity|]. split; [reflexivity|]. split; [reflexivity|].
  split; [exact (L0 "/home/u")|]. split; [exact P0 | exact M0].
Defined.

(* ================================================================== *)
(** ** Further properties of the script *)

(** *** The argument vector (line 11) *)

Lemma posix_rename_raises (w : world) (a b : string) (e : exn) :
  rename w a b = Raise e -> exists n, e = OSError n.
Proof.
  simpl. unfold posix_rename.
  destruct (locate w a) as [|f|]; destruct (locate w b) as [|g|];
    try (intros [= <-]; eauto; fail).
  unfold rename_entry.
  destruct (get f (content w)) as [n|]; [|intros [= <-]; eauto].
  destruct (String.eqb f g); [discriminate|].
  destruct (negb (writable w)); [intros [= <-]; eauto|].
  destruct n as [d|ch|]; destruct (get g (content w)) as [[d'|[|c ch']|]|];
    intros E; try discriminate; injection E as <-; eauto.
Qed.

Lemma posix_listdir_raises (w : world) (p : string) (e : exn) :
  listdir w p = Raise e -> exists n, e = OSError n.
Proof.
  simpl. unfold posix_listdir.
  repeat match goal with
         | |- context [match ?x with _ => _ end] => destruct x
         end;
    intros E; try discriminate; injection E as <-; eauto.
Qed.

Lemma rename_loop_raises (w w' : world) (dir : string) (l : list string) (e : exn) :
  rename_loop w dir l = (w', Some e) -> exists n, e = OSError n.
Proof.
  revert w; induction l as [|f l IH]; intros w; [discriminate|].
  rewrite rename_loop_cons.
  destruct (is_jpg f); [|apply IH].
  destruct (rename w (join dir f) (join dir (new_name f))) as [w1|e1] eqn:R;
    [apply IH|].
  intros [= _ <-]. exact (posix_rename_raises _ _ _ _ R).
Qed.

(** X1.  The run dies of [IndexError] exactly when the argument vector
    has no element of index 1; no filesystem call raises it. *)
Theorem index_error_iff_no_argument :
  forall (w : world) (script : string) (argv : list string),
    fault (main w script argv) = Some IndexError <-> length argv < 2.
Proof.
  intros w script argv. destruct argv as [|a0 [|mypath more]].
  - simpl. split; [lia | reflexivity].
  - simpl. split; [lia | reflexivity].
  - split; [|simpl; lia]. unfold main, listing_pass, rename_pass.
    cbn [nth_error].
    destruct (listdir w mypath) as [l|e] eqn:E.
    + destruct (rename_loop w mypath l) as [w' [e|]] eqn:R;
        [|discriminate].
      destruct (rename_loop_raises _ _ _ _ _ R) as (n & ->). discriminate.
    + destruct (posix_listdir_raises _ _ _ E) as (n & ->). discriminate.
Qed.

(** *** The listing loop (lines 14-18) *)

Lemma main_posix (w : world) (script a0 mypath : string) (more : list string) :
  wf w = true -> locate w mypath = TheDir -> readable w = true ->
  main w script (a0 :: mypath :: more)
  = {| stdout := map (fun f => join (dirname script) (join mypath f))
                     (regular (content w));
       final := fst (rename_pass w mypath);
       fault := snd (rename_pass w mypath) |}.
Proof.
  intros Wf L R. unfold main. cbn [nth_error].
  rewrite (listing_pass_posix _ _ _ Wf L R).
  now destruct (rename_pass w mypath).
Qed.

Lemma regular_spec (es : entries) (f : string) :
  NoDup (names es) ->
  (In f (regular es) <-> exists d, get f es = Some (File d)).
Proof.
  intros ND. unfold regular, names. rewrite in_map_iff. split.
  - intros ([k n] & <- & I). apply filter_In in I as [I F]. simpl in *.
    destruct n as [d| |]; try discriminate.
    exists d. now apply NoDup_get.
  - intros (d & G). exists (f, File d). split; [reflexivity|].
    apply filter_In. split; [now apply get_In | reflexivity].
Qed.

(** X2.  Whatever the rename pass does afterwards, the run prints one
    line for each regular file of the directory, in listing order, and
    none for a subdirectory or a special file; the line is the
    directory of the script joined with the argument joined with the
    name. *)
Theorem listing_lines :
  forall (w : world) (script a0 mypath : string) (more : list string),
    wf w = true -> locate w mypath = TheDir -> readable w = true ->
    stdout (main w script (a0 :: mypath :: more))
    = map (fun f => join (dirname script) (join mypath f)) (regular (content w))
    /\ (forall f, In f (regular (content w))
                  <-> exists d, get f (content w) = Some (File d))
    /\ length (stdout (main w script (a0 :: mypath :: more)))
       <= length (content w).
Proof.
  intros w script a0 mypath more Wf L R.
  rewrite (main_posix _ _ _ _ _ Wf L R). cbn [stdout].
  destruct (wf_inv _ Wf) as [ND _].
  repeat apply conj.
  - reflexivity.
  - intros f. now apply regular_spec.
  - rewrite length_map. unfold regular, names. rewrite length_map.
    apply filter_length_le.
Qed.

Lemma listing_lines_witness :
  stdout (main flat_pics "/home/u/utils.py" ["utils.py"; "pics"])
  = ["/home/u/pics/A_1.jpg"]
  /\ length (stdout (main flat_pics "/home/u/utils.py" ["utils.py"; "pics"])) <= 3.
Proof.
  destruct (listing_lines flat_pics "/home/u/utils.py" "utils.py" "pics" []
              eq_refl eq_refl eq_refl) as (A & _ & B).
  split; [exact A | exact B].
Defined.

Lemma isabs_join (c p : string) : isabs c = true -> isabs (join c p) = true.
Proof.
  intros A. unfold isabs, join.
  destruct (startswith p "/") eqn:Sp; [assumption|].
  destruct c as [|x c]; [discriminate|].
  destruct (_ || _)%bool; exact A.
Qed.

Lemma join_abs (c p : string) : isabs p = true -> join c p = p.
Proof. unfold isabs, join. now intros ->. Qed.

(** A path and the same path joined to the working directory denote
    the same thing. *)
Lemma locate_join_cwd (w : world) (p : string) :
  isabs (cwd w) = true -> p <> "" ->
  locate w (join (cwd w) p) = locate w p.
Proof.
  intros A Hp. unfold locate, resolve.
  destruct (String.eqb_spec (join (cwd w) p) "") as [E|_];
    [now apply join_nonempty in E|].
  destruct (String.eqb_spec p ""); [contradiction|].
  now rewrite (join_abs (cwd w) (join (cwd w) p) (isabs_join _ _ A)).
Qed.

(** X3.  Run from the directory the script is stored in, the listing
    pass prints, for a relative argument as well, absolute paths that
    name the regular files of the directory. *)
Theorem listing_from_script_directory :
  forall (w : world) (script a0 mypath : string) (more : list string),
    isabs (cwd w) = true -> dirname script = cwd w ->
    wf w = true -> locate w mypath = TheDir -> readable w = true ->
    Forall (fun line =>
              isabs line = true
              /\ isfile w line = true
              /\ exists f, In f (regular (content w))
                           /\ line = join (cwd w) (join mypath f)
                           /\ locate w line = InDir f)
           (stdout (main w script (a0 :: mypath :: more))).
Proof.
  intros w script a0 mypath more A D Wf L R.
  rewrite (main_posix _ _ _ _ _ Wf L R). cbn [stdout]. rewrite D.
  destruct (wf_inv _ Wf) as [ND V].
  apply Forall_forall. intros line I.
  apply in_map_iff in I as (f & <- & I).
  pose proof I as I'.
  rewrite <- (filter_regular w mypath (content w) ND L V (incl_refl _)) in I'.
  apply filter_In in I' as [In' F].
  assert (Vf : valid_name f = true)
    by exact (proj1 (forallb_forall _ _) V f In').
  assert (Hl : locate w (join (cwd w) (join mypath f)) = InDir f).
  { rewrite locate_join_cwd; [now apply locate_join_entry | assumption |].
    apply join_nonempty. now destruct (valid_name_inv _ Vf). }
  repeat apply conj.
  - now apply isabs_join.
  - simpl in *. unfold posix_isfile in *. rewrite Hl.
    now rewrite (locate_join_entry _ _ _ L Vf) in F.
  - exists f. auto.
Qed.

Lemma listing_from_script_directory_witness :
  Forall (fun line =>
            isabs line = true
            /\ isfile plain_pics line = true
            /\ exists f, In f (regular (content plain_pics))
                         /\ line = join (cwd plain_pics) (join "pics" f)
                         /\ locate plain_pics line = InDir f)
         (stdout (main plain_pics "/home/u/utils.py" ["utils.py"; "pics"])).
Proof.
  exact (listing_from_script_directory plain_pics "/home/u/utils.py"
           "utils.py" "pics" [] eq_refl eq_refl eq_refl eq_refl eq_refl).
Defined.

(** *** The new name (lines 23-25) *)

(** X4.  The new name of a legal [.jpg] entry name is a legal entry
    name, and both paths handed to [os.rename] name entries of the
    directory itself: a rename never leaves the directory. *)
Theorem rename_stays_in_directory :
  forall (w : world) (dir f : string),
    locate w dir = TheDir -> valid_name f = true -> is_jpg f = true ->
    valid_name (new_name f) = true
    /\ locate w (join dir f) = InDir f
    /\ locate w (join dir (new_name f)) = InDir (new_name f).
Proof.
  intros w dir f L V J. pose proof (new_name_valid _ V J) as V'.
  repeat split; [assumption | |]; now apply locate_join_entry.
Qed.

Lemma rename_stays_in_directory_witness :
  valid_name (new_name "X_Y.jpg") = true
  /\ locate photo_pics (join "pics" "X_Y.jpg") = InDir "X_Y.jpg"
  /\ locate photo_pics (join "pics" (new_name "X_Y.jpg")) = InDir (new_name "X_Y.jpg").
Proof.
  exact (rename_stays_in_directory photo_pics "pics" "X_Y.jpg"
           eq_refl eq_refl eq_refl).
Defined.

Lemma no_char_startswith (c : ascii) (s : string) :
  startswith s c = true -> no_char c s = false.
Proof.
  destruct s as [|a s]; [discriminate|]. unfold no_char; simpl.
  now intros ->.
Qed.

(** X5.  The new name is never longer than the old one, and for a
    [.jpg] name it has the same length exactly when the base name has
    no underscore. *)
Theorem new_name_not_longer :
  forall (f : string),
    String.length (new_name f) <= String.length f
    /\ (is_jpg f = true ->
        (String.length (new_name f) = String.length f
         <-> no_char "_" (fst (splitext f)) = true)).
Proof.
  intros f. unfold new_name, is_jpg.
  destruct (splitext f) as [base ext] eqn:E. simpl fst. simpl snd.
  pose proof (splitext_append _ _ _ E) as A.
  destruct (split_hd_spec "_" base) as (rest & Eb & N & R).
  assert (Lb : String.length base
               = String.length (hd "" (split "_" base)) + String.length rest)
    by (rewrite Eb at 1; apply length_append).
  rewrite <- A, !length_append, lower_length.
  split; [lia|]. intros _. split.
  - intros H. assert (L0 : String.length rest = 0) by lia.
    destruct rest; [|discriminate]. rewrite append_nil_r in Eb.
    now rewrite Eb.
  - intros Nb. destruct R as [->|S]; [simpl in Lb; lia|].
    rewrite Eb, no_char_app, (no_char_startswith _ _ S), andb_false_r in Nb.
    discriminate.
Qed.

Lemma new_name_not_longer_witness :
  String.length (new_name "X_Y.jpg") <= String.length "X_Y.jpg"
  /\ String.length (new_name "Photo.jpg") = String.length "Photo.jpg".
Proof.
  split; [exact (proj1 (new_name_not_longer "X_Y.jpg"))|].
  apply (proj2 (new_name_not_longer "Photo.jpg") eq_refl). reflexivity.
Defined.

(** *** The rename loop (lines 22-26) *)

Lemma remove_length (k : string) (es : entries) :
  length (remove k es) <= length es.
Proof. apply filter_length_le. Qed.

Lemma remove_length_lt (k : string) (es : entries) :
  get k es <> None -> length (remove k es) < length es.
Proof.
  induction es as [|[k' n] es IH]; simpl; [congruence|].
  destruct (String.eqb k' k); simpl; intros G.
  - pose proof (remove_length k es) as Lk. unfold remove in *. lia.
  - apply IH in G. unfold remove in *. lia.
Qed.

Lemma rename_entry_length (wr : bool) (es es' : entries) (src dst : string) :
  rename_entry wr es src dst = Ok es' -> length es' <= length es.
Proof.
  unfold rename_entry. destruct (get src es) as [n|] eqn:G; [|discriminate].
  destruct (String.eqb src dst); [now intros [= <-]|].
  destruct (negb wr); [discriminate|].
  assert (L : length ((dst, n) :: remove dst (remove src es)) <= length es).
  { simpl. pose proof (remove_length dst (remove src es)) as L1.
    assert (Gs : get src es <> None) by congruence.
    pose proof (remove_length_lt src es Gs) as L2. lia. }
  destruct n as [d|ch|]; destruct (get dst es) as [[d'|[|c ch']|]|];
    intros E; try discriminate; injection E as <-; exact L.
Qed.

Lemma rename_entries_provenance (wr : bool) (es : entries) (l : list string)
      (x : string) (n : node) :
  get x (fst (rename_entries wr es l)) = Some n ->
  exists y, get y es = Some n
            /\ (y = x \/ (is_jpg y = true /\ new_name y = x)).
Proof.
  revert es; induction l as [|f l IH]; intros es; simpl.
  - intros G. exists x. auto.
  - destruct (is_jpg f) eqn:J; [|apply IH].
    destruct (rename_entry wr es f (new_name f)) as [es1|e] eqn:R;
      [|intros G; exists x; auto].
    intros G. destruct (IH es1 G) as (y1 & G1 & Hy).
    rewrite (rename_entry_get _ _ _ _ _ R) in G1.
    destruct (String.eqb_spec y1 (new_name f)) as [E1|N1].
    + exists f. split; [assumption|]. right. split; [assumption|].
      destruct Hy as [<-|[J1 <-]]; [now symmetry|].
      rewrite E1 in *. symmetry. now apply new_name_fixed.
    + destruct (String.eqb y1 f); [discriminate|].
      exists y1. auto.
Qed.

Lemma rename_entries_length (wr : bool) (es : entries) (l : list string) :
  length (fst (rename_entries wr es l)) <= length es.
Proof.
  revert es; induction l as [|f l IH]; intros es; simpl; [lia|].
  destruct (is_jpg f); [|apply IH].
  destruct (rename_entry wr es f (new_name f)) as [es1|e] eqn:R; [|simpl; lia].
  pose proof (rename_entry_length _ _ _ _ _ R). pose proof (IH es1). lia.
Qed.

(** X9.  The rename pass only moves entries: whether it completes or
    not, every node found in the directory afterwards is the node of an
    entry that was there before, under the old name of that entry or
    under its new name; and the directory has no more entries than
    before. *)
Theorem rename_pass_only_moves :
  forall (w : world) (dir : string),
    wf w = true -> locate w dir = TheDir ->
    (forall x n,
        get x (content (fst (rename_pass w dir))) = Some n ->
        exists y, get y (content w) = Some n
                  /\ (y = x \/ (is_jpg y = true /\ new_name y = x)))
    /\ length (content (fst (rename_pass w dir))) <= length (content w).
Proof.
  intros w dir Wf L.
  destruct (readable w) eqn:R.
  - rewrite (rename_pass_posix _ _ Wf L R). simpl. split.
    + intros x n. apply rename_entries_provenance.
    + apply rename_entries_length.
  - rewrite (rename_pass_unreadable _ _ L R). simpl. split; [|lia].
    intros x n G. exists x. auto.
Qed.

Lemma rename_pass_only_moves_witness :
  (exists y, get y (content pair_pics) = Some (File "2")
             /\ (y = "a.jpg" \/ (is_jpg y = true /\ new_name y = "a.jpg")))
  /\ length (content (fst (rename_pass pair_pics "pics"))) <= 2.
Proof.
  destruct (rename_pass_only_moves pair_pics "pics" eq_refl eq_refl) as [A B].
  split; [exact (A "a.jpg" (File "2") eq_refl) | exact B].
Defined.

(** *** Entries waiting for their turn *)

Lemma rename_entry_ok_src (wr : bool) (es es' : entries) (src dst : string) :
  rename_entry wr es src dst = Ok es' -> get src es <> None.
Proof.
  unfold rename_entry. destruct (get src es); [congruence | discriminate].
Qed.

(** Entries still to be processed survive the renames of the others. *)
Lemma rename_entry_keeps_listed (wr : bool) (es es' : entries)
      (src dst : string) (l : list string) :
  rename_entry wr es src dst = Ok es' ->
  ~ In src l -> (forall g, In g l -> get g es <> None) ->
  forall g, In g l -> get g es' <> None.
Proof.
  intros R Ns Ex g I. rewrite (rename_entry_get _ _ _ _ _ R).
  destruct (String.eqb g dst); [exact (rename_entry_ok_src _ _ _ _ _ R)|].
  destruct (String.eqb_spec g src) as [->|]; [contradiction | now apply Ex].
Qed.

Lemma rename_entries_keeps_listed (wr : bool) (es es1 : entries)
      (l1 rest : list string) :
  NoDup (l1 ++ rest) ->
  (forall g, In g rest -> get g es <> None) ->
  rename_entries wr es l1 = (es1, None) ->
  forall g, In g rest -> get g es1 <> None.
Proof.
  revert es; induction l1 as [|f l1 IH]; intros es ND Ex; simpl.
  - now intros [= <-].
  - inversion ND as [|? ? Nf ND']; subst.
    destruct (is_jpg f); [|now apply IH].
    destruct (rename_entry wr es f (new_name f)) as [es2|e] eqn:R;
      [|discriminate].
    apply IH; [assumption|].
    apply (rename_entry_keeps_listed _ _ _ _ _ _ R); [|assumption].
    intros I. apply Nf, in_or_app. now right.
Qed.

(** X6.  No entry disappears before its turn: when the renames for the
    entries listed before [f] have succeeded, [f] is still an entry of
    the directory, so the loop never renames a name that is gone; and
    [f] still has its own node unless one of those entries had [f] as
    its new name. *)
Theorem listed_entry_awaits_its_turn :
  forall (w w1 : world) (dir : string) (l1 l2 : list string) (f : string),
    wf w = true -> locate w dir = TheDir ->
    names (content w) = (l1 ++ f :: l2)%list ->
    rename_loop w dir l1 = (w1, None) ->
    get f (content w1) <> None
    /\ ((forall g, In g l1 -> is_jpg g = true -> new_name g <> f) ->
        get f (content w1) = get f (content w)).
Proof.
  intros w w1 dir l1 l2 f Wf L Hl P. destruct (wf_inv _ Wf) as [ND V].
  rewrite Hl in ND, V.
  assert (V1 : forallb valid_name l1 = true).
  { apply forallb_forall. intros g I.
    apply (proj1 (forallb_forall _ _) V). apply in_or_app. now left. }
  rewrite (rename_loop_entries _ _ _ L V1) in P.
  destruct (rename_entries (writable w) (content w) l1) as [es1 r] eqn:E1.
  simpl in P. injection P as <- ->. simpl content. split.
  - assert (Ex : forall g, In g (f :: l2) -> get g (content w) <> None).
    { intros g I. apply get_names. rewrite Hl. apply in_or_app. now right. }
    exact (rename_entries_keeps_listed _ _ _ _ _ ND Ex E1 f (or_introl eq_refl)).
  - intros T.
    pose proof (rename_entries_frame (writable w) (content w) l1 f) as F.
    rewrite E1 in F. apply F. intros g I J. split; [|now apply T].
    intros ->. apply (NoDup_remove_2 _ _ _ ND). apply in_or_app. now left.
Qed.

Lemma listed_entry_awaits_its_turn_witness :
  get "a.jpg" (content (fst (rename_loop clash_pics "pics" ["a_1.jpg"]))) <> None
  /\ get "Photo.jpg" (content (fst (rename_loop photo_pics "pics" ["X_Y.jpg"])))
     = Some (File "2").
Proof.
  assert (P1 : rename_loop clash_pics "pics" ["a_1.jpg"]
               = (fst (rename_loop clash_pics "pics" ["a_1.jpg"]), None))
    by (vm_compute; reflexivity).
  assert (P2 : rename_loop photo_pics "pics" ["X_Y.jpg"]
               = (fst (rename_loop photo_pics "pics" ["X_Y.jpg"]), None))
    by (vm_compute; reflexivity).
  split.
  - exact (proj1 (listed_entry_awaits_its_turn clash_pics _ "pics"
                    ["a_1.jpg"] [] "a.jpg" eq_refl eq_refl eq_refl P1)).
  - apply (proj2 (listed_entry_awaits_its_turn photo_pics _ "pics"
                    ["X_Y.jpg"] [] "Photo.jpg" eq_refl eq_refl eq_refl P2)).
    intros g [<-|[]] _. vm_compute. discriminate.
Defined.

(** *** After a completed run *)

Lemma fixed_name_base (x : string) :
  is_jpg x = true -> new_name x = x ->
  no_char "_" (fst (splitext x)) = true /\ no_upper (fst (splitext x)) = true.
Proof.
  intros J F. destruct (is_jpg_inv _ J) as (base & E & A).
  rewrite E. simpl fst.
  rewrite (new_name_jpg _ _ E) in F. rewrite A in F.
  apply append_inj_r in F. rewrite <- F. split.
  - rewrite no_underscore_lower.
    now destruct (split_hd_spec "_" base) as (rest & _ & N & _).
  - apply no_upper_lower.
Qed.

Lemma rename_pass_settled (w w' : world) (dir : string) :
  wf w = true -> locate w dir = TheDir ->
  rename_pass w dir = (w', None) ->
  forall x, In x (names (content w')) -> is_jpg x = true -> new_name x = x.
Proof.
  intros Wf L P.
  destruct (readable w) eqn:R;
    [|rewrite (rename_pass_unreadable _ _ L R) in P; discriminate].
  rewrite (rename_pass_posix _ _ Wf L R) in P.
  destruct (rename_entries (writable w) (content w) (names (content w)))
    as [es r] eqn:Er.
  simpl in P. injection P as <- ->. simpl content.
  apply (rename_entries_settled _ _ _ _ Er). intros x I _. now left.
Qed.

Lemma rename_pass_unique (w w' : world) (dir f : string) :
  wf w = true -> locate w dir = TheDir ->
  In f (names (content w)) -> is_jpg f = true ->
  (forall g, In g (names (content w)) -> is_jpg g = true ->
             new_name g = new_name f -> g = f) ->
  rename_pass w dir = (w', None) ->
  get (new_name f) (content w') = get f (content w).
Proof.
  intros Wf L I J U P. destruct (wf_inv _ Wf) as [ND V].
  destruct (readable w) eqn:R;
    [|rewrite (rename_pass_unreadable _ _ L R) in P; discriminate].
  rewrite (rename_pass_posix _ _ Wf L R) in P.
  destruct (rename_entries (writable w) (content w) (names (content w)))
    as [es r] eqn:Er.
  simpl in P. injection P as <- ->. simpl content.
  exact (proj1 (rename_entries_unique _ _ _ _ _ ND I J U Er)).
Qed.

(** X10.  Let no entry that needs renaming have a new name that is
    already the name of an entry or the new name of another entry.
    After a pass that completed, every [.jpg] entry of the directory
    is then its own new name, with a base name without underscore and
    without upper-case letter, and every [.jpg] entry there was is
    found, with its node, under its new name. *)
Theorem completed_pass_normalises :
  forall (w w' : world) (dir : string),
    wf w = true -> locate w dir = TheDir ->
    (forall g, In g (names (content w)) -> is_jpg g = true ->
               new_name g <> g ->
               ~ In (new_name g) (names (content w))
               /\ forall g', In g' (names (content w)) -> is_jpg g' = true ->
                             new_name g' = new_name g -> g' = g) ->
    rename_pass w dir = (w', None) ->
    (forall x, In x (names (content w')) -> is_jpg x = true ->
               new_name x = x
               /\ no_char "_" (fst (splitext x)) = true
               /\ no_upper (fst (splitext x)) = true)
    /\ (forall f, In f (names (content w)) -> is_jpg f = true ->
                  get (new_name f) (content w') = get f (content w)).
Proof.
  intros w w' dir Wf L Fr P. split.
  - intros x I J.
    pose proof (rename_pass_settled _ _ _ Wf L P x I J) as F.
    split; [assumption | now apply fixed_name_base].
  - intros f I J. apply (rename_pass_unique _ _ _ _ Wf L I J); [|assumption].
    intros g Ig Jg E.
    destruct (string_dec (new_name f) f) as [Fx|NF].
    + destruct (string_dec g f) as [|Ng]; [assumption|]. exfalso.
      assert (Ngg : new_name g <> g) by congruence.
      destruct (Fr g Ig Jg Ngg) as [Nin _]. apply Nin. congruence.
    + destruct (Fr f I J NF) as [_ U]. now apply U.
Qed.

Lemma completed_pass_normalises_witness :
  (new_name "x.jpg" = "x.jpg"
   /\ no_char "_" (fst (splitext "x.jpg")) = true
   /\ no_upper (fst (splitext "x.jpg")) = true)
  /\ get (new_name "Photo.jpg") (content (fst (rename_pass photo_pics "pics")))
     = Some (File "2").
Proof.
  assert (P : rename_pass photo_pics "pics"
              = (fst (rename_pass photo_pics "pics"), None))
    by (vm_compute; reflexivity).
  destruct (completed_pass_normalises photo_pics
              (fst (rename_pass photo_pics "pics")) "pics" eq_refl eq_refl)
    as [A B].
  - intros g [<-|[<-|[]]] _ _; (split; [vm_compute; intuition discriminate|]);
      intros g' [<-|[<-|[]]] _ E; try reflexivity; vm_compute in E; discriminate.
  - exact P.
  - split.
    + apply A; [vm_compute; auto | reflexivity].
    + apply B; [simpl; auto | reflexivity].
Defined.

Lemma isfile_join_cwd (w : world) (p : string) :
  isabs (cwd w) = true -> p <> "" ->
  isfile w (join (cwd w) p) = isfile w p.
Proof.
  intros A Hp. simpl. unfold posix_isfile. now rewrite locate_join_cwd.
Qed.

(** X11.  The listing comes before the renames.  Run from the directory
    the script is stored in, let [f] be a regular [.jpg] file whose new
    name differs from its name, is not yet the name of an entry and is
    the new name of no other entry.  The line printed for [f] is the
    path of a regular file before the run; after a run that completed
    it is the path of no file, and the file is found under its new
    name. *)
Theorem printed_jpg_paths_are_stale :
  forall (w : world) (script a0 mypath : string) (more : list string) (f : string),
    isabs (cwd w) = true -> dirname script = cwd w ->
    wf w = true -> locate w mypath = TheDir -> readable w = true ->
    fault (main w script (a0 :: mypath :: more)) = None ->
    In f (regular (content w)) -> is_jpg f = true -> new_name f <> f ->
    ~ In (new_name f) (names (content w)) ->
    (forall g, In g (names (content w)) -> is_jpg g = true ->
               new_name g = new_name f -> g = f) ->
    In (join (dirname script) (join mypath f))
       (stdout (main w script (a0 :: mypath :: more)))
    /\ isfile w (join (dirname script) (join mypath f)) = true
    /\ isfile (final (main w script (a0 :: mypath :: more)))
              (join (dirname script) (join mypath f)) = false
    /\ isfile (final (main w script (a0 :: mypath :: more)))
              (join (dirname script) (join mypath (new_name f))) = true.
Proof.
  intros w script a0 mypath more f A D Wf L R.
  rewrite (main_posix _ _ _ _ _ Wf L R). cbn [fault stdout final].
  intros C I J NF Nin U. destruct (wf_inv _ Wf) as [ND V]. rewrite D.
  pose proof I as I'.
  rewrite <- (filter_regular w mypath (content w) ND L V (incl_refl _)) in I'.
  apply filter_In in I' as [In' F].
  assert (Vf : valid_name f = true)
    by exact (proj1 (forallb_forall _ _) V f In').
  pose proof (new_name_valid _ Vf J) as Vt.
  assert (Ne : forall g, valid_name g = true -> join mypath g <> "").
  { intros g Vg. apply join_nonempty. now destruct (valid_name_inv _ Vg). }
  destruct (rename_pass w mypath) as [w' r] eqn:P. simpl in C. subst r.
  simpl fst.
  assert (Hw : cwd w' = cwd w /\ locate w' mypath = TheDir).
  { pose proof P as P'. rewrite (rename_pass_posix _ _ Wf L R) in P'.
    injection P' as <- _. split; [reflexivity | now rewrite locate_with_content]. }
  destruct Hw as [Cw L'].
  assert (A' : isabs (cwd w') = true) by now rewrite Cw.
  repeat apply conj.
  - apply in_map_iff. exists f. auto.
  - rewrite isfile_join_cwd by auto. exact F.
  - rewrite <- Cw, isfile_join_cwd by auto.
    rewrite (posix_isfile_entry _ _ _ L' Vf).
    destruct (get f (content w')) as [n|] eqn:G; [|reflexivity].
    exfalso. apply NF.
    apply (rename_pass_settled _ _ _ Wf L P); [|assumption].
    apply get_names. congruence.
  - rewrite <- Cw, isfile_join_cwd by auto.
    rewrite (posix_isfile_entry _ _ _ L' Vt).
    rewrite (rename_pass_unique _ _ _ _ Wf L In' J U P).
    apply (regular_spec _ _ ND) in I as (d & ->). reflexivity.
Qed.

Lemma printed_jpg_paths_are_stale_witness :
  In "/home/u/pics/X_Y.jpg"
     (stdout (main photo_pics "/home/u/utils.py" ["utils.py"; "pics"]))
  /\ isfile photo_pics "/home/u/pics/X_Y.jpg" = true
  /\ isfile (final (main photo_pics "/home/u/utils.py" ["utils.py"; "pics"]))
            "/home/u/pics/X_Y.jpg" = false
  /\ isfile (final (main photo_pics "/home/u/utils.py" ["utils.py"; "pics"]))
            "/home/u/pics/x.jpg" = true.
Proof.
  apply (printed_jpg_paths_are_stale photo_pics "/home/u/utils.py" "utils.py"
           "pics" [] "X_Y.jpg" eq_refl eq_refl eq_refl eq_refl eq_refl eq_refl).
  - simpl; auto.
  - reflexivity.
  - vm_compute. discriminate.
  - vm_compute. intuition discriminate.
  - intros g [<-|[<-|[]]] _ E; [reflexivity | vm_compute in E; discriminate].
Defined.
